(** * Connect4 gym environment: shallow embedding of [connect4_gym.py]

    The environment object is a record [env]; every method is a function in
    a small state-and-exception monad [M], so that a Python exception
    leaves the mutations done before it in place, exactly as in the source.
    The opponent callable and the random draw of [reset] are inputs.
    The renderer calls ([self._renderer.reset()], [render_step()]) only
    print the grid and are left out; so are [render] and the registration
    of the environment. *)

From Stdlib Require Import String ZArith List Bool Arith Lia.
Import ListNotations.

Set Implicit Arguments.

(** ** numpy indexing on Python lists *)

Module Np.

(** An integer index [i] into an axis of size [n]: negative indices count
    from the end, anything else out of range is an [IndexError] ([None]). *)
Definition norm_index (n : nat) (i : Z) : option nat :=
  if ((0 <=? i) && (i <? Z.of_nat n))%Z then Some (Z.to_nat i)
  else if ((- Z.of_nat n <=? i) && (i <? 0))%Z then Some (Z.to_nat (i + Z.of_nat n))
  else None.

Definition getitem {A : Type} (l : list A) (i : Z) : option A :=
  match norm_index (length l) i with
  | Some k => nth_error l k
  | None => None
  end.

(** [a[i, j]] on a two-dimensional array. *)
Definition getitem2 {A : Type} (a : list (list A)) (i j : Z) : option A :=
  match getitem a i with
  | Some r => getitem r j
  | None => None
  end.

Fixpoint set_nth {A : Type} (l : list A) (k : nat) (x : A) : list A :=
  match l, k with
  | [], _ => []
  | _ :: t, O => x :: t
  | h :: t, S k' => h :: set_nth t k' x
  end.

(** [a[i, j] = x]; only used right after a successful read of [a[i, j]]. *)
Definition setitem2 {A : Type} (a : list (list A)) (i j : Z) (x : A)
  : list (list A) :=
  match norm_index (length a) i with
  | Some ki =>
      match nth_error a ki with
      | Some r =>
          match norm_index (length r) j with
          | Some kj => set_nth a ki (set_nth r kj x)
          | None => a
          end
      | None => a
      end
  | None => a
  end.

(** [np.zeros((rows, columns), dtype=np.int8)] *)
Definition zeros (rows columns : nat) : list (list Z) :=
  repeat (repeat 0%Z columns) rows.

(** [l[i:]] and [l[i::-1]] for a start index [i >= 0]. *)
Definition slice_from {A : Type} (i : nat) (l : list A) : list A := skipn i l.
Definition slice_rev {A : Type} (i : nat) (l : list A) : list A :=
  rev (firstn (S i) l).

(** [a.diagonal()]: the elements [a[k, k]]. *)
Fixpoint diagonal_from {A : Type} (j : nat) (a : list (list A)) : list A :=
  match a with
  | [] => []
  | r :: a' =>
      match nth_error r j with
      | Some x => x :: diagonal_from (S j) a'
      | None => []
      end
  end.

Definition diagonal {A : Type} (a : list (list A)) : list A := diagonal_from 0 a.

(** [a == v], elementwise. *)
Definition eq_scalar (v : Z) (r : list Z) : list bool := map (fun x => (x =? v)%Z) r.
Definition eq_scalar2 (v : Z) (a : list (list Z)) : list (list bool) :=
  map (eq_scalar v) a.

End Np.

(** ** [_line_length] (module-level function, lines 140-147) *)

Fixpoint run_prefix (first : Z) (rest : list Z) : nat :=
  match rest with
  | [] => 0
  | piece :: rest' => if (piece =? first)%Z then S (run_prefix first rest') else 0
  end.

Definition _line_length (line : list Z) : nat :=
  match line with
  | [] => 0
  | first :: rest => run_prefix first rest
  end.

(** ** Exceptions and step results *)

Inductive exn : Type :=
| InvalidAction                      (* ValueError("invalid action") *)
| InvalidMove                        (* ValueError("invalid move") *)
| InvalidOpponentMove (column : Z)   (* ValueError(f"invalid opponent move: {column!r}") *)
| IndexError.                        (* raised by numpy indexing *)

Inductive result (A : Type) : Type :=
| Ok (a : A)
| Err (e : exn).
Arguments Ok {A} a.
Arguments Err {A} e.

(** Boolean planes; the cast [astype(np.float32)] sends [True] to [1.0] and
    [False] to [0.0], so a plane is kept as booleans.  An observation is the
    stack of two planes. *)
Definition plane := list (list bool).
Definition ObsType := list plane.

(** The tuple returned by [step]; the float rewards [1.0], [0.0], [-1.0]
    are written as the integers they denote, [info] is always [{}]. *)
Record step_result : Type := StepResult {
  observation : ObsType;
  reward : Z;
  terminated : bool;
  truncated : bool
}.

(** [spaces.Discrete(n).contains(x)] for a Python int [x]. *)
Definition contains (n : nat) (x : Z) : bool :=
  ((0 <=? x) && (x <? Z.of_nat n))%Z.

(** ** Board geometry used to state the properties *)

(** The cell at row [r], column [c], if the grid has one. *)
Definition cell (b : list (list Z)) (r c : nat) : option Z :=
  match nth_error b r with
  | Some line => nth_error line c
  | None => None
  end.

Definition cellZ (b : list (list Z)) (r c : Z) : option Z :=
  if ((0 <=? r) && (0 <=? c))%Z then cell b (Z.to_nat r) (Z.to_nat c) else None.

(** A [rows] x [columns] array. *)
Definition wf_board (nrows ncols : nat) (b : list (list Z)) : Prop :=
  length b = nrows /\ Forall (fun line => length line = ncols) b.

Definition occupied (x : Z) : bool := negb (x =? 0)%Z.

Definition count_row (f : Z -> bool) (line : list Z) : nat :=
  length (filter f line).
Definition count_cells (f : Z -> bool) (b : list (list Z)) : nat :=
  list_sum (map (count_row f) b).

(** Number of non-empty cells of the grid. *)
Definition count_occupied (b : list (list Z)) : nat := count_cells occupied b.

(** Number of [true] cells of a boolean plane. *)
Definition count_true (p : plane) : nat :=
  list_sum (map (fun line => length (filter (fun x : bool => x) line)) p).

Definition board_full (b : list (list Z)) : bool := forallb (forallb occupied) b.

(** Every cell of column [c] is non-empty. *)
Definition column_full (b : list (list Z)) (c : nat) : Prop :=
  forall r, r < length b -> cell b r c <> Some 0%Z.

(** The lowest row of column [c] whose cell is empty. *)
Definition is_empty_at (b : list (list Z)) (c r : nat) : bool :=
  match cell b r c with
  | Some x => (x =? 0)%Z
  | None => false
  end.
Definition lowest_empty (b : list (list Z)) (nrows c : nat) : option nat :=
  find (is_empty_at b c) (seq 0 nrows).

(** Cells hold [0] (empty), [1] (agent) or [-1] (opponent). *)
Definition is_piece (x : Z) : bool := ((x =? 0) || (x =? 1) || (x =? -1))%Z.
Definition pieces_only (b : list (list Z)) : Prop :=
  Forall (fun line => Forall (fun x => is_piece x = true) line) b.

(** Pieces rest on pieces: every cell above an empty cell is empty. *)
Definition gravity (b : list (list Z)) : Prop :=
  forall r r' c x, r < r' -> cell b r c = Some 0%Z -> cell b r' c = Some x -> x = 0%Z.

(** A cell of a boolean plane. *)
Definition plane_cell (p : plane) (r c : nat) : option bool :=
  match nth_error p r with
  | Some line => nth_error line c
  | None => None
  end.

(** The four axes as (row step, column step): vertical, horizontal and the
    two diagonals. *)
Definition axes : list (Z * Z) := [(1, 0); (0, 1); (1, 1); (1, -1)]%Z.

(** A run of [n] cells of value [v] starting at [(r0, c0)] along [d] that
    is at least [wl] long and goes through [(row, col)]. *)
Definition is_run (b : list (list Z)) (v wl : Z) (row col : nat)
  (d : Z * Z) (r0 c0 : Z) (n : nat) : Prop :=
  (wl <= Z.of_nat n)%Z /\
  (forall k, k < n ->
     cellZ b (r0 + Z.of_nat k * fst d) (c0 + Z.of_nat k * snd d) = Some v) /\
  (exists k, k < n /\
     (r0 + Z.of_nat k * fst d = Z.of_nat row)%Z /\
     (c0 + Z.of_nat k * snd d = Z.of_nat col)%Z).

Definition run_through (b : list (list Z)) (v wl : Z) (row col : nat) : Prop :=
  exists d r0 c0 n, In d axes /\ is_run b v wl row col d r0 c0 n.

(** Length of the run of [v] that starts at [(r, c)] and follows [d]. *)
Fixpoint run_from (b : list (list Z)) (v : Z) (r c : Z) (d : Z * Z)
  (fuel : nat) : nat :=
  match fuel with
  | O => 0
  | S fuel' =>
      match cellZ b r c with
      | Some x =>
          if (x =? v)%Z
          then S (run_from b v (r + fst d) (c + snd d) d fuel')
          else 0
      | None => 0
      end
  end.

(** The full-board rescan: every cell of the grid is tried as the start of
    a run along every axis. *)
Definition rescan_start (b : list (list Z)) (v wl : Z) (row col : nat)
  (fuel : nat) (d : Z * Z) (r0 c0 : nat) : bool :=
  let n := run_from b v (Z.of_nat r0) (Z.of_nat c0) d fuel in
  (wl <=? Z.of_nat n)%Z &&
  existsb (fun k =>
             (Z.of_nat r0 + Z.of_nat k * fst d =? Z.of_nat row)%Z &&
             (Z.of_nat c0 + Z.of_nat k * snd d =? Z.of_nat col)%Z)
          (seq 0 n).

Definition rescan (nrows ncols : nat) (b : list (list Z)) (wl : Z)
  (row col : nat) : bool :=
  match cell b row col with
  | None => false
  | Some v =>
      existsb (fun d =>
        existsb (fun r0 =>
          existsb (fun c0 => rescan_start b v wl row col (nrows + ncols) d r0 c0)
                  (seq 0 ncols))
                (seq 0 nrows))
              axes
  end.


Section Connect4.

(** The opponent callable obtained from [get_opponent()]: [policy] is
    whatever internal state the callable carries from one call to the
    next, [opponent] is one call of it. *)
Variable policy : Type.
Variable opponent : policy -> ObsType -> list bool -> Z * policy.

Record env : Type := Env {
  rows : nat;
  columns : nat;
  win_length : Z;
  _opponent : policy;
  _board : list (list Z);
  _num_moves : nat
}.

Definition set_board (s : env) (b : list (list Z)) : env :=
  Env (rows s) (columns s) (win_length s) (_opponent s) b (_num_moves s).
Definition set_num_moves (s : env) (n : nat) : env :=
  Env (rows s) (columns s) (win_length s) (_opponent s) (_board s) n.
Definition set_opponent (s : env) (p : policy) : env :=
  Env (rows s) (columns s) (win_length s) p (_board s) (_num_moves s).

Definition M (A : Type) : Type := env -> result A * env.

Definition ret {A : Type} (a : A) : M A := fun s => (Ok a, s).
Definition raise {A : Type} (e : exn) : M A := fun s => (Err e, s).
Definition bind {A B : Type} (m : M A) (k : A -> M B) : M B :=
  fun s =>
    match m s with
    | (Ok a, s') => k a s'
    | (Err e, s') => (Err e, s')
    end.

Notation "x <- m ;; k" := (bind m (fun x => k))
  (at level 61, m at next level, right associativity).
Notation "m ;;; k" := (bind m (fun _ => k))
  (at level 61, right associativity).

Definition gets {A : Type} (f : env -> A) : M A := fun s => (Ok (f s), s).
Definition modify (f : env -> env) : M unit := fun s => (Ok tt, f s).
Definition index {A : Type} (o : option A) : M A :=
  match o with
  | Some a => ret a
  | None => raise IndexError
  end.

(** [action_masks] (lines 85-86) *)
Definition action_masks : M (list bool) :=
  board <- gets _board ;;
  top <- index (Np.getitem board (-1)) ;;
  ret (Np.eq_scalar 0 top).

(** [_get_observation] (lines 88-91) *)
Definition _get_observation (player : Z) : M ObsType :=
  board <- gets _board ;;
  let player_pieces := Np.eq_scalar2 player board in
  let opponent_pieces := Np.eq_scalar2 (- player) board in
  ret [player_pieces; opponent_pieces].

(** [_move] (lines 93-99); [range] is what is left of [range(self.rows)]. *)
Fixpoint _move_loop (column piece : Z) (range : list nat) : M nat :=
  match range with
  | [] => raise InvalidMove
  | row :: range' =>
      board <- gets _board ;;
      cell <- index (Np.getitem2 board (Z.of_nat row) column) ;;
      if (cell =? 0)%Z then
        modify (fun s => set_board s (Np.setitem2 board (Z.of_nat row) column piece)) ;;;
        ret row
      else _move_loop column piece range'
  end.

Definition _move (column piece : Z) : M nat :=
  modify (fun s => set_num_moves s (S (_num_moves s))) ;;;
  nrows <- gets rows ;;
  _move_loop column piece (seq 0 nrows).

(** The guard of lines 66 and 103:
    [not self.action_space.contains(c) or self._board[-1, c] != 0]. *)
Definition illegal (column : Z) : M bool :=
  n <- gets columns ;;
  if negb (contains n column) then ret true
  else
    board <- gets _board ;;
    top <- index (Np.getitem2 board (-1) column) ;;
    ret (negb (top =? 0)%Z).

(** [_opponent_move] (lines 101-106) *)
Definition _opponent_move : M (nat * Z) :=
  obs <- _get_observation (-1) ;;
  mask <- action_masks ;;
  column <- (fun s => let (c, p) := opponent (_opponent s) obs mask in
                      (Ok c, set_opponent s p)) ;;
  bad <- illegal column ;;
  if bad then raise (InvalidOpponentMove column)
  else
    row <- _move column (-1) ;;
    ret (row, column).

(** [_is_win] (lines 108-123), for the non-negative [row] and [column] its
    callers pass: [row] comes out of [range(self.rows)] and [column] has
    passed [contains].  The integer index of the first two slices is
    checked against the array shape. *)
Definition _is_win (row column : nat) : M bool :=
  board <- gets _board ;;
  wl <- gets win_length ;;
  ncols <- gets columns ;;
  down <- index (if column <? ncols
                 then Some (map (fun r => nth column r 0%Z) (Np.slice_rev row board))
                 else None) ;;
  if (Z.of_nat (_line_length down) + 1 >=? wl)%Z then ret true
  else
    r <- index (nth_error board row) ;;
    if (Z.of_nat (_line_length (Np.slice_rev column r)
                  + _line_length (Np.slice_from column r)) + 1 >=? wl)%Z
    then ret true
    else if (Z.of_nat
               (_line_length
                  (Np.diagonal (map (Np.slice_from column) (Np.slice_from row board)))
                + _line_length
                    (Np.diagonal (map (Np.slice_rev column) (Np.slice_rev row board))))
             + 1 >=? wl)%Z
    then ret true
    else ret (Z.of_nat
                (_line_length
                   (Np.diagonal (map (Np.slice_rev column) (Np.slice_from row board)))
                 + _line_length
                     (Np.diagonal (map (Np.slice_from column) (Np.slice_rev row board))))
              + 1 >=? wl)%Z.

(** [reset] (lines 43-63).  [fresh] is the callable returned by
    [self.get_opponent()], [coin] the value of
    [self.np_random.choice([True, False])].  The value is the one returned
    with the default [return_info=False]; with [True] the same observation
    comes paired with [{}]. *)
Definition reset (fresh : policy) (coin : bool) : M ObsType :=
  modify (fun s => set_opponent s fresh) ;;;
  modify (fun s => set_board s (Np.zeros (rows s) (columns s))) ;;;
  modify (fun s => set_num_moves s 0) ;;;
  (if coin then _opponent_move ;;; ret tt else ret tt) ;;;
  _get_observation 1.

(** [step] (lines 65-83) *)
Definition step (action : Z) : M step_result :=
  bad <- illegal action ;;
  if bad then raise InvalidAction
  else
    row <- _move action 1 ;;
    won <- _is_win row (Z.to_nat action) ;;
    if won then
      obs <- _get_observation 1 ;; ret (StepResult obs 1 true false)
    else
      full <- gets (fun s => _num_moves s =? rows s * columns s) ;;
      if full then
        obs <- _get_observation 1 ;; ret (StepResult obs 0 true false)
      else
        om <- _opponent_move ;;
        won' <- _is_win (fst om) (Z.to_nat (snd om)) ;;
        if won' then
          obs <- _get_observation 1 ;; ret (StepResult obs (-1) true false)
        else
          full' <- gets (fun s => _num_moves s =? rows s * columns s) ;;
          if full' then
            obs <- _get_observation 1 ;; ret (StepResult obs 0 true false)
          else
            obs <- _get_observation 1 ;; ret (StepResult obs 0 false false).

(** The value [_get_observation(player)] returns on board [b]. *)
Definition planes (player : Z) (b : list (list Z)) : ObsType :=
  [Np.eq_scalar2 player b; Np.eq_scalar2 (- player) b].

(** The test [self._num_moves == self.rows * self.columns]. *)
Definition is_full (s : env) : bool := _num_moves s =? rows s * columns s.

(** ** State predicates *)

Definition wf (s : env) : Prop := wf_board (rows s) (columns s) (_board s).

(** The invariant of the board engine. *)
Definition invariant (s : env) : Prop :=
  wf s /\ pieces_only (_board s) /\ count_occupied (_board s) = _num_moves s /\
  gravity (_board s).

(** The constructor arguments of the environment are never reassigned. *)
Definition same_config (s s' : env) : Prop :=
  rows s' = rows s /\ columns s' = columns s /\ win_length s' = win_length s.

(** States of an environment on which [reset] has been called, followed by
    any number of [step] calls, failed ones included; [action_masks] and
    [_get_observation] leave the state as it is. *)
Inductive reachable : env -> Prop :=
| reach_reset : forall s0 fresh coin r s,
    reset fresh coin s0 = (r, s) -> reachable s
| reach_step : forall s action r s',
    reachable s -> step action s = (r, s') -> reachable s'.

(** What the opponent callable answers in state [s] (line 102): the column
    and the callable's next internal state. *)
Definition opponent_choice (s : env) : Z * policy :=
  opponent (_opponent s)
           [Np.eq_scalar2 (-1) (_board s); Np.eq_scalar2 (- -1) (_board s)]
           (match Np.getitem (_board s) (-1) with
            | Some top => Np.eq_scalar 0 top
            | None => []
            end).

(** The guarded move of lines 66-69 and 103-106: the legality test, then
    [_move]; [e] is the exception of the caller at hand. *)
Definition apply_move (e : exn) (column piece : Z) : M nat :=
  bad <- illegal column ;;
  if bad then raise e else _move column piece.

Fixpoint apply_moves (e : exn) (moves : list (Z * Z)) : M unit :=
  match moves with
  | [] => ret tt
  | (column, piece) :: moves' =>
      apply_move e column piece ;;; apply_moves e moves'
  end.

(** The part of [step] after the agent's move has neither won nor filled
    the board (lines 76-83). *)
Definition opponent_turn : M step_result :=
  om <- _opponent_move ;;
  won' <- _is_win (fst om) (Z.to_nat (snd om)) ;;
  if won' then
    obs <- _get_observation 1 ;; ret (StepResult obs (-1) true false)
  else
    full' <- gets (fun s => _num_moves s =? rows s * columns s) ;;
    if full' then
      obs <- _get_observation 1 ;; ret (StepResult obs 0 true false)
    else
      obs <- _get_observation 1 ;; ret (StepResult obs 0 false false).

End Connect4.

Arguments Env {policy}.

(** ** A scripted opponent and a standard board, for examples *)

(** The opponent that always answers the column it was created with. *)
Definition fixed_opponent (p : Z) (_ : ObsType) (_ : list bool) : Z * Z := (p, p).

(** A 6 x 7 environment with [win_length = 4] before its first [reset]. *)
Definition fresh_env (p : Z) : env Z := Env 6 7 4%Z p [] 0.

(** Run a list of agent actions, stopping at the first exception. *)
Fixpoint play (actions : list Z) (s : env Z) : env Z :=
  match actions with
  | [] => s
  | a :: actions' => play actions' (snd (step fixed_opponent a s))
  end.

(** The game of the examples: a cleared board, the opponent always in
    column 0 and not moving first. *)
Definition game0 : env Z :=
  Eval vm_compute in snd (reset fixed_opponent 0%Z false (fresh_env 0%Z)).

(** Three rounds: the agent in column 3, the opponent in column 0. *)
Definition three_game : env Z := Eval vm_compute in play [3; 3; 3]%Z game0.

(** The agent has dropped four pieces in column 3. *)
Definition won_game : env Z := Eval vm_compute in play [3; 3; 3; 3]%Z game0.

(** Two more agent pieces in column 3, which is now full. *)
Definition full_column_game : env Z :=
  Eval vm_compute in play [3; 3]%Z won_game.

(** A cleared board whose opponent always answers column 7, which a
    7-column board does not have. *)
Definition bad_opponent_game : env Z :=
  Eval vm_compute in snd (reset fixed_opponent 7%Z false (fresh_env 0%Z)).

(** A 6 x 7 board with [win_length = 4] right after a [reset] in which
    the opponent, who always answers column 3, has moved first. *)
Definition opened_game : env Z :=
  Eval vm_compute in snd (reset fixed_opponent 3%Z true (fresh_env 0%Z)).

(** One more agent piece in column 3 after the win. *)
Definition five_game : env Z := Eval vm_compute in play [3]%Z won_game.

(** A 6 x 7 environment with [win_length = 1] whose opponent always
    answers column 3, before its first [reset], and after a [reset] in
    which the opponent moved first. *)
Definition short_env : env Z := Env 6 7 1%Z 3%Z [] 0.
Definition short_cleared : env Z := Env 6 7 1%Z 3%Z (Np.zeros 6 7) 0.
Definition short_opened : env Z :=
  Eval vm_compute in snd (reset fixed_opponent 3%Z true short_env).
Definition short_played : env Z :=
  Eval vm_compute in snd (step fixed_opponent 0%Z short_opened).

(** ** Rendering ([DISPLAY_CHARACTER], line 13, and [_render], lines 130-137)

    A Python [str] is a sequence of code points; the text written to
    standard output is the list of the code points printed so far. *)

Definition newline : N := 10%N.

(** The dict literal, in source order: yellow, red and white circles. *)
Definition DISPLAY_CHARACTER : list (Z * N) :=
  [(1%Z, 0x1F7E1%N); ((-1)%Z, 0x1F534%N); (0%Z, 0x26AA%N)].

Fixpoint dict_get (d : list (Z * N)) (key : Z) : option N :=
  match d with
  | [] => None
  | (k, v) :: d' => if (k =? key)%Z then Some v else dict_get d' key
  end.

Inductive render_exn : Type :=
| InvalidRenderMode          (* ValueError("invalid render mode") *)
| KeyError (piece : Z).      (* DISPLAY_CHARACTER[piece] on a missing key *)

(** The inner loop and the [print()] that ends the line: the text printed,
    and the exception that stopped the printing, if any. *)
Fixpoint print_row (row : list Z) : list N * option render_exn :=
  match row with
  | [] => ([newline], None)
  | piece :: row' =>
      match dict_get DISPLAY_CHARACTER piece with
      | None => ([], Some (KeyError piece))
      | Some ch =>
          let (out, e) := print_row row' in (ch :: out, e)
      end
  end.

Fixpoint print_rows (rows : list (list Z)) : list N * option render_exn :=
  match rows with
  | [] => ([], None)
  | row :: rows' =>
      match print_row row with
      | (out, Some e) => (out, Some e)
      | (out, None) =>
          let (out', e) := print_rows rows' in (out ++ out', e)
      end
  end.

(** [_render(mode)]: [reversed(self._board)] puts the top row first. *)
Definition _render {policy : Type} (mode : string) (s : env policy)
  : list N * option render_exn :=
  if String.eqb mode "human" then print_rows (rev (_board s))
  else ([], Some InvalidRenderMode).

(** Reading a rendered text back: one row per line, bottom row last. *)
Definition read_character (ch : N) : option Z :=
  if (ch =? 0x1F7E1)%N then Some 1%Z
  else if (ch =? 0x1F534)%N then Some (-1)%Z
  else if (ch =? 0x26AA)%N then Some 0%Z
  else None.

Fixpoint read_lines (text : list N) (line : list Z) : list (list Z) :=
  match text with
  | [] => []
  | ch :: text' =>
      if (ch =? newline)%N then rev line :: read_lines text' []
      else
        match read_character ch with
        | Some piece => read_lines text' (piece :: line)
        | None => read_lines text' line
        end
  end.

Definition read_board (text : list N) : list (list Z) := rev (read_lines text []).

(** A 2 x 2 board with [win_length = 4], cleared, and the same board after
    the agent played column 1 and the opponent column 0. *)
Definition tiny_game : env Z :=
  Eval vm_compute in snd (reset fixed_opponent 0%Z false (Env 2 2 4%Z 0%Z [] 0)).
Definition tiny_next : env Z :=
  Eval vm_compute in snd (step fixed_opponent 1%Z tiny_game).

(** ** Further predicates *)

(** Every piece of [b] is still there, unchanged, in [b']. *)
Definition keeps_pieces (b b' : list (list Z)) : Prop :=
  forall r c x, cell b r c = Some x -> x <> 0%Z -> cell b' r c = Some x.

(** The cells on which two boards differ are among [cells]. *)
Definition differ_within (b b' : list (list Z)) (cells : list (nat * nat)) : Prop :=
  forall r c, ~ In (r, c) cells -> cell b' r c = cell b r c.

(** A [nrows] x [ncols] boolean plane. *)
Definition plane_shape (nrows ncols : nat) (p : plane) : Prop :=
  length p = nrows /\ Forall (fun line => length line = ncols) p.

(** * Properties *)

Unset Implicit Arguments.

(** ** Lists, slices and diagonals *)

Section ListFacts.

Context {A : Type}.

Lemma nth_error_slice_from (i k : nat) (l : list A) :
  nth_error (Np.slice_from i l) k = nth_error l (i + k).
Proof. apply nth_error_skipn. Qed.

Lemma nth_error_slice_rev (i k : nat) (l : list A) :
  i < length l ->
  nth_error (Np.slice_rev i l) k = if k <=? i then nth_error l (i - k) else None.
Proof.
  intros Hi. unfold Np.slice_rev.
  rewrite nth_error_rev, length_firstn.
  replace (Nat.min (S i) (length l)) with (S i) by lia.
  destruct (Nat.ltb_spec k (S i)), (Nat.leb_spec k i); try lia; auto.
  rewrite nth_error_firstn.
  destruct (Nat.ltb_spec (S i - S k) (S i)); try lia.
  f_equal; lia.
Qed.

Lemma length_slice_from (i : nat) (l : list A) :
  length (Np.slice_from i l) = length l - i.
Proof. apply length_skipn. Qed.

Lemma length_slice_rev (i : nat) (l : list A) :
  i < length l -> length (Np.slice_rev i l) = S i.
Proof.
  intros Hi. unfold Np.slice_rev. rewrite length_rev, length_firstn. lia.
Qed.

Lemma nth_error_diagonal_from (len : nat) (a : list (list A)) :
  Forall (fun r => length r = len) a ->
  forall j k,
    nth_error (Np.diagonal_from j a) k =
    match nth_error a k with
    | Some r => nth_error r (j + k)
    | None => None
    end.
Proof.
  induction 1 as [|r a Hr Ha IH]; intros j k.
  - destruct k; reflexivity.
  - simpl. destruct (nth_error r j) as [x|] eqn:E.
    + destruct k as [|k]; simpl.
      * now rewrite Nat.add_0_r.
      * rewrite IH. now replace (S j + k) with (j + S k) by lia.
    + apply nth_error_None in E.
      destruct k as [|k]; simpl.
      * symmetry. apply nth_error_None. lia.
      * destruct (nth_error a k) as [r'|] eqn:E'; [|now destruct k].
        apply nth_error_In in E'.
        rewrite Forall_forall in Ha. apply Ha in E'.
        symmetry. replace (nth_error [] k) with (@None A) by now destruct k.
        apply nth_error_None. lia.
Qed.

Lemma nth_error_diagonal (len : nat) (a : list (list A)) (k : nat) :
  Forall (fun r => length r = len) a ->
  nth_error (Np.diagonal a) k =
  match nth_error a k with
  | Some r => nth_error r k
  | None => None
  end.
Proof. intros Ha. unfold Np.diagonal. now rewrite (nth_error_diagonal_from len a Ha). Qed.

Lemma nth_error_set_nth_eq (l : list A) (k : nat) (x : A) :
  k < length l -> nth_error (Np.set_nth l k x) k = Some x.
Proof.
  revert k; induction l as [|h t IH]; intros [|k] Hk; simpl in *; try lia; auto.
  apply IH; lia.
Qed.

Lemma nth_error_set_nth_neq (l : list A) (k k' : nat) (x : A) :
  k <> k' -> nth_error (Np.set_nth l k x) k' = nth_error l k'.
Proof.
  revert k k'; induction l as [|h t IH]; intros [|k] [|k'] Hk; simpl; auto;
    try congruence; try (apply IH; lia).
Qed.

Lemma length_set_nth (l : list A) (k : nat) (x : A) :
  length (Np.set_nth l k x) = length l.
Proof.
  revert k; induction l as [|h t IH]; intros [|k]; simpl; auto.
Qed.

End ListFacts.

(** ** Cells of a well-formed board *)

Lemma cellZ_of_nat (b : list (list Z)) (r c : nat) :
  cellZ b (Z.of_nat r) (Z.of_nat c) = cell b r c.
Proof.
  unfold cellZ.
  destruct (Z.leb_spec 0 (Z.of_nat r)), (Z.leb_spec 0 (Z.of_nat c)); try lia.
  simpl. now rewrite !Nat2Z.id.
Qed.

Lemma cellZ_negative (b : list (list Z)) (r c : Z) :
  (r < 0 \/ c < 0)%Z -> cellZ b r c = None.
Proof.
  intros H. unfold cellZ.
  destruct (Z.leb_spec 0 r), (Z.leb_spec 0 c); simpl; auto; lia.
Qed.

Lemma cellZ_some_nat (b : list (list Z)) (r c : Z) (v : Z) :
  cellZ b r c = Some v ->
  (0 <= r)%Z /\ (0 <= c)%Z /\ cell b (Z.to_nat r) (Z.to_nat c) = Some v.
Proof.
  unfold cellZ.
  destruct (Z.leb_spec 0 r), (Z.leb_spec 0 c); simpl; intros Hv; try discriminate.
  auto.
Qed.

Lemma wf_board_row (nrows ncols : nat) (b : list (list Z)) (r : nat) (line : list Z) :
  wf_board nrows ncols b -> nth_error b r = Some line -> length line = ncols.
Proof.
  intros [_ Hb] E. apply nth_error_In in E.
  rewrite Forall_forall in Hb. now apply Hb.
Qed.

Lemma wf_board_nth (nrows ncols : nat) (b : list (list Z)) (r : nat) :
  wf_board nrows ncols b -> r < nrows ->
  exists line, nth_error b r = Some line /\ length line = ncols.
Proof.
  intros Hb Hr. destruct (nth_error b r) as [line|] eqn:E.
  - exists line. split; auto. eapply wf_board_row; eauto.
  - apply nth_error_None in E. destruct Hb as [Hl _]. lia.
Qed.

Lemma cell_some_bounds (nrows ncols : nat) (b : list (list Z)) (r c : nat) (v : Z) :
  wf_board nrows ncols b -> cell b r c = Some v -> r < nrows /\ c < ncols.
Proof.
  intros Hb. unfold cell. destruct (nth_error b r) as [line|] eqn:E; [|discriminate].
  intros Hc. pose proof (wf_board_row _ _ _ _ _ Hb E) as Hl.
  assert (nth_error b r <> None) as H1 by congruence.
  assert (nth_error line c <> None) as H2 by congruence.
  apply nth_error_Some in H1, H2. destruct Hb as [Hlen _]. lia.
Qed.

Lemma cell_in_bounds (nrows ncols : nat) (b : list (list Z)) (r c : nat) :
  wf_board nrows ncols b -> r < nrows -> c < ncols ->
  exists v, cell b r c = Some v.
Proof.
  intros Hb Hr Hc. destruct (wf_board_nth _ _ _ _ Hb Hr) as (line & E & Hl).
  unfold cell. rewrite E.
  destruct (nth_error line c) as [v|] eqn:E'; eauto.
  apply nth_error_None in E'. lia.
Qed.

(** ** The eight half-lines of [_is_win] as rays of cells *)

Section Rays.

Variables (nrows ncols : nat) (b : list (list Z)) (row col : nat).
Hypothesis Hb : wf_board nrows ncols b.
Hypothesis Hrow : row < nrows.
Hypothesis Hcol : col < ncols.

Lemma rows_length_from (l : list (list Z)) :
  Forall (fun r => length r = ncols) l ->
  Forall (fun r => length r = ncols - col) (map (Np.slice_from col) l).
Proof.
  intros H. rewrite Forall_forall in *. intros x Hx.
  apply in_map_iff in Hx. destruct Hx as (r & <- & Hr).
  rewrite length_slice_from. now rewrite (H r Hr).
Qed.

Lemma rows_length_rev (l : list (list Z)) :
  Forall (fun r => length r = ncols) l ->
  Forall (fun r => length r = S col) (map (Np.slice_rev col) l).
Proof.
  intros H. rewrite Forall_forall in *. intros x Hx.
  apply in_map_iff in Hx. destruct Hx as (r & <- & Hr).
  apply length_slice_rev. rewrite (H r Hr). exact Hcol.
Qed.

Lemma Forall_slice_from {A : Type} (P : A -> Prop) (i : nat) (l : list A) :
  Forall P l -> Forall P (Np.slice_from i l).
Proof.
  intros H. rewrite Forall_forall in *. intros x Hx. apply H.
  unfold Np.slice_from in Hx. rewrite <- (firstn_skipn i l).
  apply in_or_app. now right.
Qed.

Lemma Forall_slice_rev {A : Type} (P : A -> Prop) (i : nat) (l : list A) :
  Forall P l -> Forall P (Np.slice_rev i l).
Proof.
  intros H. rewrite Forall_forall in *. intros x Hx. apply H.
  unfold Np.slice_rev in Hx. apply in_rev in Hx.
  rewrite <- (firstn_skipn (S i) l). apply in_or_app. now left.
Qed.

(** Rows at and above [row], then rows at and below it. *)
Lemma nth_rows_up (k : nat) :
  nth_error (Np.slice_from row b) k = nth_error b (row + k).
Proof. apply nth_error_slice_from. Qed.

Lemma nth_rows_down (k : nat) :
  nth_error (Np.slice_rev row b) k = if k <=? row then nth_error b (row - k) else None.
Proof. apply nth_error_slice_rev. destruct Hb as [-> _]. exact Hrow. Qed.

Lemma cell_right (line : list Z) (k : nat) :
  nth_error (Np.slice_from col line) k = nth_error line (col + k).
Proof. apply nth_error_slice_from. Qed.

Lemma cell_left (line : list Z) (k : nat) :
  length line = ncols ->
  nth_error (Np.slice_rev col line) k =
  if k <=? col then nth_error line (col - k) else None.
Proof. intros Hl. apply nth_error_slice_rev. now rewrite Hl. Qed.

Lemma cellZ_up_right (k j : nat) :
  cellZ b (Z.of_nat row + Z.of_nat k) (Z.of_nat col + Z.of_nat j) = cell b (row + k) (col + j).
Proof.
  rewrite <- !Nat2Z.inj_add. apply cellZ_of_nat.
Qed.

Lemma cellZ_down (k : nat) (c : Z) :
  row < k -> cellZ b (Z.of_nat row - Z.of_nat k) c = None.
Proof. intros H. apply cellZ_negative. lia. Qed.

Lemma cellZ_left (k : nat) (r : Z) :
  col < k -> cellZ b r (Z.of_nat col - Z.of_nat k) = None.
Proof. intros H. apply cellZ_negative. lia. Qed.

Lemma ray_down (k : nat) :
  nth_error (map (fun r => nth col r 0%Z) (Np.slice_rev row b)) k =
  cellZ b (Z.of_nat row + Z.of_nat k * -1) (Z.of_nat col + Z.of_nat k * 0).
Proof using Hb Hrow Hcol.
  rewrite nth_error_map, nth_rows_down.
  replace (Z.of_nat row + Z.of_nat k * -1)%Z with (Z.of_nat row - Z.of_nat k)%Z by lia.
  replace (Z.of_nat col + Z.of_nat k * 0)%Z with (Z.of_nat col) by lia.
  destruct (Nat.leb_spec k row) as [Hk|Hk].
  - rewrite <- Nat2Z.inj_sub by lia. rewrite cellZ_of_nat.
    unfold cell. destruct (wf_board_nth _ _ _ (row - k) Hb ltac:(lia)) as (line & -> & Hl).
    simpl. symmetry. apply nth_error_nth'. lia.
  - simpl. symmetry. now apply cellZ_down.
Qed.

Lemma ray_up (k : nat) :
  nth_error (map (fun r => nth col r 0%Z) (Np.slice_from row b)) k =
  cellZ b (Z.of_nat row + Z.of_nat k * 1) (Z.of_nat col + Z.of_nat k * 0).
Proof using Hb Hrow Hcol.
  rewrite nth_error_map, nth_rows_up.
  replace (Z.of_nat row + Z.of_nat k * 1)%Z with (Z.of_nat row + Z.of_nat k)%Z by lia.
  replace (Z.of_nat col + Z.of_nat k * 0)%Z with (Z.of_nat col + Z.of_nat 0)%Z by lia.
  rewrite cellZ_up_right, Nat.add_0_r. unfold cell.
  destruct (nth_error b (row + k)) as [line|] eqn:E; simpl; auto.
  symmetry. apply nth_error_nth'. rewrite (wf_board_row _ _ _ _ _ Hb E). exact Hcol.
Qed.

Lemma ray_left (line : list Z) (k : nat) :
  nth_error b row = Some line ->
  nth_error (Np.slice_rev col line) k =
  cellZ b (Z.of_nat row + Z.of_nat k * 0) (Z.of_nat col + Z.of_nat k * -1).
Proof using Hb Hrow Hcol.
  intros E. rewrite cell_left by (eapply wf_board_row; eauto).
  replace (Z.of_nat row + Z.of_nat k * 0)%Z with (Z.of_nat row) by lia.
  replace (Z.of_nat col + Z.of_nat k * -1)%Z with (Z.of_nat col - Z.of_nat k)%Z by lia.
  destruct (Nat.leb_spec k col) as [Hk|Hk].
  - rewrite <- Nat2Z.inj_sub by lia. rewrite cellZ_of_nat.
    unfold cell. now rewrite E.
  - symmetry. now apply cellZ_left.
Qed.

Lemma ray_right (line : list Z) (k : nat) :
  nth_error b row = Some line ->
  nth_error (Np.slice_from col line) k =
  cellZ b (Z.of_nat row + Z.of_nat k * 0) (Z.of_nat col + Z.of_nat k * 1).
Proof using Hb Hrow Hcol.
  intros E. rewrite cell_right.
  replace (Z.of_nat row + Z.of_nat k * 0)%Z with (Z.of_nat row + Z.of_nat 0)%Z by lia.
  replace (Z.of_nat col + Z.of_nat k * 1)%Z with (Z.of_nat col + Z.of_nat k)%Z by lia.
  rewrite cellZ_up_right, Nat.add_0_r. unfold cell. now rewrite E.
Qed.

Lemma ray_up_right (k : nat) :
  nth_error (Np.diagonal (map (Np.slice_from col) (Np.slice_from row b))) k =
  cellZ b (Z.of_nat row + Z.of_nat k * 1) (Z.of_nat col + Z.of_nat k * 1).
Proof using Hb Hrow Hcol.
  rewrite (nth_error_diagonal (ncols - col)).
  2:{ apply rows_length_from, Forall_slice_from, Hb. }
  rewrite nth_error_map, nth_rows_up, !Z.mul_1_r, cellZ_up_right. unfold cell.
  destruct (nth_error b (row + k)) as [line|]; simpl; auto. apply cell_right.
Qed.

Lemma ray_up_left (k : nat) :
  nth_error (Np.diagonal (map (Np.slice_rev col) (Np.slice_from row b))) k =
  cellZ b (Z.of_nat row + Z.of_nat k * 1) (Z.of_nat col + Z.of_nat k * -1).
Proof using Hb Hrow Hcol.
  rewrite (nth_error_diagonal (S col)).
  2:{ apply rows_length_rev, Forall_slice_from, Hb. }
  rewrite nth_error_map, nth_rows_up.
  replace (Z.of_nat col + Z.of_nat k * -1)%Z with (Z.of_nat col - Z.of_nat k)%Z by lia.
  rewrite Z.mul_1_r.
  destruct (nth_error b (row + k)) as [line|] eqn:E; simpl.
  - rewrite cell_left by (eapply wf_board_row; eauto).
    destruct (Nat.leb_spec k col) as [Hk|Hk].
    + rewrite <- Nat2Z.inj_sub, <- Nat2Z.inj_add by lia.
      rewrite cellZ_of_nat. unfold cell. now rewrite E.
    + symmetry. now apply cellZ_left.
  - destruct (Nat.leb_spec k col) as [Hk|Hk].
    + rewrite <- Nat2Z.inj_sub, <- Nat2Z.inj_add by lia.
      rewrite cellZ_of_nat. unfold cell. now rewrite E.
    + symmetry. now apply cellZ_left.
Qed.

Lemma ray_down_left (k : nat) :
  nth_error (Np.diagonal (map (Np.slice_rev col) (Np.slice_rev row b))) k =
  cellZ b (Z.of_nat row + Z.of_nat k * -1) (Z.of_nat col + Z.of_nat k * -1).
Proof using Hb Hrow Hcol.
  rewrite (nth_error_diagonal (S col)).
  2:{ apply rows_length_rev, Forall_slice_rev, Hb. }
  rewrite nth_error_map, nth_rows_down.
  replace (Z.of_nat row + Z.of_nat k * -1)%Z with (Z.of_nat row - Z.of_nat k)%Z by lia.
  replace (Z.of_nat col + Z.of_nat k * -1)%Z with (Z.of_nat col - Z.of_nat k)%Z by lia.
  destruct (Nat.leb_spec k row) as [Hk|Hk]; [|symmetry; now apply cellZ_down].
  destruct (wf_board_nth _ _ _ (row - k) Hb ltac:(lia)) as (line & E & Hl).
  rewrite E. simpl. rewrite cell_left by exact Hl.
  destruct (Nat.leb_spec k col) as [Hk'|Hk']; [|symmetry; now apply cellZ_left].
  rewrite <- !Nat2Z.inj_sub by lia.
  rewrite cellZ_of_nat. unfold cell. now rewrite E.
Qed.

Lemma ray_down_right (k : nat) :
  nth_error (Np.diagonal (map (Np.slice_from col) (Np.slice_rev row b))) k =
  cellZ b (Z.of_nat row + Z.of_nat k * -1) (Z.of_nat col + Z.of_nat k * 1).
Proof using Hb Hrow Hcol.
  rewrite (nth_error_diagonal (ncols - col)).
  2:{ apply rows_length_from, Forall_slice_rev, Hb. }
  rewrite nth_error_map, nth_rows_down.
  replace (Z.of_nat row + Z.of_nat k * -1)%Z with (Z.of_nat row - Z.of_nat k)%Z by lia.
  rewrite Z.mul_1_r.
  destruct (Nat.leb_spec k row) as [Hk|Hk]; [|symmetry; now apply cellZ_down].
  destruct (wf_board_nth _ _ _ (row - k) Hb ltac:(lia)) as (line & E & Hl).
  rewrite E. simpl. rewrite cell_right.
  rewrite <- Nat2Z.inj_sub, <- Nat2Z.inj_add by lia.
  rewrite cellZ_of_nat. unfold cell. now rewrite E.
Qed.

End Rays.

(** ** [_line_length] counts the cells equal to the first one *)

Lemma run_prefix_all (v : Z) (rest : list Z) (k : nat) :
  k < run_prefix v rest -> nth_error rest k = Some v.
Proof.
  revert k; induction rest as [|x rest IH]; simpl; intros k Hk; [lia|].
  destruct (Z.eqb_spec x v) as [->|]; [|lia].
  destruct k as [|k]; simpl; auto. apply IH. lia.
Qed.

Lemma run_prefix_max (v : Z) (rest : list Z) (m : nat) :
  (forall k, k < m -> nth_error rest k = Some v) -> m <= run_prefix v rest.
Proof.
  revert m; induction rest as [|x rest IH]; simpl; intros m Hm.
  - destruct m as [|m]; auto. specialize (Hm 0 ltac:(lia)). discriminate.
  - destruct m as [|m]; [lia|].
    pose proof (Hm 0 ltac:(lia)) as H0. simpl in H0. injection H0 as ->.
    rewrite Z.eqb_refl. apply le_n_S, IH.
    intros k Hk. apply (Hm (S k)). lia.
Qed.

Lemma line_length_all (line : list Z) (v : Z) (k : nat) :
  nth_error line 0 = Some v -> k <= _line_length line ->
  nth_error line k = Some v.
Proof.
  destruct line as [|x rest]; simpl; [discriminate|].
  intros [= ->] Hk. destruct k as [|k]; simpl; auto.
  apply run_prefix_all. lia.
Qed.

Lemma line_length_max (line : list Z) (v : Z) (m : nat) :
  nth_error line 0 = Some v ->
  (forall k, k <= m -> nth_error line k = Some v) -> m <= _line_length line.
Proof.
  destruct line as [|x rest]; simpl; [discriminate|].
  intros [= ->] Hm. apply run_prefix_max.
  intros k Hk. apply (Hm (S k)). lia.
Qed.

(** ** One axis: the two half-line counts against the runs through a cell *)

Section Axis.

Variables (b : list (list Z)) (v wl : Z) (row col : nat).
Variables (dr dc bdr bdc : Z).
Variables (back forth : list Z).

Hypothesis Hopp : bdr = (- dr)%Z /\ bdc = (- dc)%Z.
Hypothesis Hback : forall k,
  nth_error back k =
  cellZ b (Z.of_nat row + Z.of_nat k * bdr) (Z.of_nat col + Z.of_nat k * bdc).
Hypothesis Hforth : forall k,
  nth_error forth k =
  cellZ b (Z.of_nat row + Z.of_nat k * dr) (Z.of_nat col + Z.of_nat k * dc).
Hypothesis Hcell : cell b row col = Some v.

Lemma back_first : nth_error back 0 = Some v.
Proof.
  rewrite Hback. simpl. rewrite !Z.add_0_r. now rewrite cellZ_of_nat.
Qed.

Lemma forth_first : nth_error forth 0 = Some v.
Proof.
  rewrite Hforth. simpl. rewrite !Z.add_0_r. now rewrite cellZ_of_nat.
Qed.

Lemma counts_give_run :
  (wl <= Z.of_nat (_line_length back + _line_length forth) + 1)%Z ->
  exists r0 c0 n, is_run b v wl row col (dr, dc) r0 c0 n.
Proof.
  intros Hwl. destruct Hopp as [Hr Hc].
  set (a := _line_length back) in *. set (f := _line_length forth) in *.
  exists (Z.of_nat row - Z.of_nat a * dr)%Z, (Z.of_nat col - Z.of_nat a * dc)%Z,
         (a + f + 1).
  split; [lia|]. split.
  - intros k Hk. simpl fst. simpl snd.
    destruct (Nat.le_gt_cases k a) as [Hka|Hka].
    + replace (Z.of_nat row - Z.of_nat a * dr + Z.of_nat k * dr)%Z
        with (Z.of_nat row + Z.of_nat (a - k) * bdr)%Z
        by (rewrite Hr, Nat2Z.inj_sub by lia; ring).
      replace (Z.of_nat col - Z.of_nat a * dc + Z.of_nat k * dc)%Z
        with (Z.of_nat col + Z.of_nat (a - k) * bdc)%Z
        by (rewrite Hc, Nat2Z.inj_sub by lia; ring).
      rewrite <- Hback. apply line_length_all; [apply back_first|].
      fold a. lia.
    + replace (Z.of_nat row - Z.of_nat a * dr + Z.of_nat k * dr)%Z
        with (Z.of_nat row + Z.of_nat (k - a) * dr)%Z
        by (rewrite Nat2Z.inj_sub by lia; ring).
      replace (Z.of_nat col - Z.of_nat a * dc + Z.of_nat k * dc)%Z
        with (Z.of_nat col + Z.of_nat (k - a) * dc)%Z
        by (rewrite Nat2Z.inj_sub by lia; ring).
      rewrite <- Hforth. apply line_length_all; [apply forth_first|].
      fold f. lia.
  - exists a. simpl fst. simpl snd. split; [lia|]. split; ring.
Qed.

Lemma run_gives_counts (r0 c0 : Z) (n : nat) :
  is_run b v wl row col (dr, dc) r0 c0 n ->
  (wl <= Z.of_nat (_line_length back + _line_length forth) + 1)%Z.
Proof.
  intros (Hwl & Hall & k & Hk & Hkr & Hkc). destruct Hopp as [Hr Hc].
  simpl fst in *. simpl snd in *.
  assert (k <= _line_length back) as Hb.
  { apply line_length_max with (v := v); [apply back_first|].
    intros j Hj. rewrite Hback, <- (Hall (k - j)) by lia.
    f_equal; rewrite ?Hr, ?Hc, Nat2Z.inj_sub by lia.
    - rewrite <- Hkr. ring.
    - rewrite <- Hkc. ring. }
  assert (n - 1 - k <= _line_length forth) as Hf.
  { apply line_length_max with (v := v); [apply forth_first|].
    intros j Hj. rewrite Hforth, <- (Hall (k + j)) by lia.
    f_equal; rewrite Nat2Z.inj_add.
    - rewrite <- Hkr. ring.
    - rewrite <- Hkc. ring. }
  lia.
Qed.

Lemma axis_iff :
  (Z.of_nat (_line_length back + _line_length forth) + 1 >=? wl)%Z = true <->
  exists r0 c0 n, is_run b v wl row col (dr, dc) r0 c0 n.
Proof.
  rewrite Z.geb_le. split.
  - apply counts_give_run.
  - intros (r0 & c0 & n & H). eapply run_gives_counts; eauto.
Qed.

End Axis.

(** ** The incremental win check *)

Section Engine.

Variable policy : Type.
Variable opponent : policy -> ObsType -> list bool -> Z * policy.

Implicit Types s : env policy.

Lemma up_count_zero (nrows ncols : nat) (b : list (list Z)) (row col : nat) (v : Z) :
  wf_board nrows ncols b ->
  cell b row col = Some v ->
  (forall r, row < r -> cell b r col <> Some v) ->
  _line_length (map (fun r => nth col r 0%Z) (Np.slice_from row b)) = 0.
Proof.
  intros Hb Hcell Habove.
  destruct (cell_some_bounds _ _ _ _ _ _ Hb Hcell) as [Hrow Hcol].
  destruct (_line_length _) as [|m] eqn:E; auto. exfalso.
  apply (Habove (row + 1)); [lia|].
  pose proof (ray_up nrows ncols b row col Hb Hrow Hcol) as Hray.
  assert (nth_error (map (fun r => nth col r 0%Z) (Np.slice_from row b)) 1 = Some v)
    as H1.
  { apply line_length_all; [|lia].
    rewrite Hray. simpl. rewrite !Z.add_0_r. now rewrite cellZ_of_nat. }
  rewrite Hray in H1.
  replace (Z.of_nat row + Z.of_nat 1 * 1)%Z with (Z.of_nat (row + 1)) in H1 by lia.
  replace (Z.of_nat col + Z.of_nat 1 * 0)%Z with (Z.of_nat col) in H1 by lia.
  now rewrite cellZ_of_nat in H1.
Qed.

Lemma is_win_run_through s row col v :
  wf s -> cell (_board s) row col = Some v ->
  (forall r, row < r -> cell (_board s) r col <> Some v) ->
  exists w, _is_win row col s = (Ok w, s) /\
            (w = true <-> run_through (_board s) v (win_length s) row col).
Proof.
  intros Hwf Hcell Habove.
  destruct (cell_some_bounds _ _ _ _ _ _ Hwf Hcell) as [Hrow Hcol].
  destruct (wf_board_nth _ _ _ _ Hwf Hrow) as (line & Eline & Hline).
  pose proof (up_count_zero _ _ _ _ _ _ Hwf Hcell Habove) as Hup.
  assert (HV := axis_iff (_board s) v (win_length s) row col 1 0 (-1) 0 _ _
                  (conj eq_refl eq_refl)
                  (ray_down _ _ (_board s) row col Hwf Hrow Hcol)
                  (ray_up _ _ (_board s) row col Hwf Hrow Hcol) Hcell).
  rewrite Hup, Nat.add_0_r in HV.
  assert (HH := axis_iff (_board s) v (win_length s) row col 0 1 0 (-1) _ _
                  (conj eq_refl eq_refl)
                  (fun k => ray_left _ _ (_board s) row col Hwf Hrow Hcol line k Eline)
                  (fun k => ray_right _ _ (_board s) row col Hwf Hrow Hcol line k Eline) Hcell).
  assert (HD := axis_iff (_board s) v (win_length s) row col 1 1 (-1) (-1) _ _
                  (conj eq_refl eq_refl)
                  (ray_down_left _ _ (_board s) row col Hwf Hrow Hcol)
                  (ray_up_right _ _ (_board s) row col Hwf Hrow Hcol) Hcell).
  rewrite Nat.add_comm in HD.
  assert (HA := axis_iff (_board s) v (win_length s) row col 1 (-1) (-1) 1 _ _
                  (conj eq_refl eq_refl)
                  (ray_down_right _ _ (_board s) row col Hwf Hrow Hcol)
                  (ray_up_left _ _ (_board s) row col Hwf Hrow Hcol) Hcell).
  rewrite Nat.add_comm in HA.
  cbv [_is_win bind gets index ret raise].
  destruct (Nat.ltb_spec col (columns s)) as [_|]; [|lia]. cbv beta iota.
  assert (forall d, In d axes ->
            (exists r0 c0 n, is_run (_board s) v (win_length s) row col d r0 c0 n) ->
            run_through (_board s) v (win_length s) row col) as Hrun.
  { intros d Hd (r0 & c0 & n & H). exists d, r0, c0, n. auto. }
  match type of HV with (?c = true <-> _) => destruct c eqn:EV end; cbv beta iota.
  { eexists; split; [reflexivity|]. split; auto. intros _.
    apply (Hrun (1, 0)%Z); [simpl; auto|]. now apply HV. }
  rewrite Eline; cbv beta iota.
  match type of HH with (?c = true <-> _) => destruct c eqn:EH end; cbv beta iota.
  { eexists; split; [reflexivity|]. split; auto. intros _.
    apply (Hrun (0, 1)%Z); [simpl; auto|]. now apply HH. }
  match type of HD with (?c = true <-> _) => destruct c eqn:ED end; cbv beta iota.
  { eexists; split; [reflexivity|]. split; auto. intros _.
    apply (Hrun (1, 1)%Z); [simpl; auto|]. now apply HD. }
  eexists; split; [reflexivity|]. split.
  - intros EA. apply (Hrun (1, -1)%Z); [simpl; auto 6|]. now apply HA.
  - intros (d & r0 & c0 & n & Hd & H).
    simpl in Hd. destruct Hd as [<-|[<-|[<-|[<-|[]]]]].
    + assert (false = true) by (apply HV; eauto). discriminate.
    + assert (false = true) by (apply HH; eauto). discriminate.
    + assert (false = true) by (apply HD; eauto). discriminate.
    + apply HA; eauto.
Qed.

End Engine.

(** ** The full-board rescan finds exactly the runs through the cell *)

Lemma run_from_all (b : list (list Z)) (v : Z) (d : Z * Z) (fuel : nat) :
  forall (r c : Z) (k : nat),
    k < run_from b v r c d fuel ->
    cellZ b (r + Z.of_nat k * fst d) (c + Z.of_nat k * snd d) = Some v.
Proof.
  induction fuel as [|fuel IH]; simpl; intros r c k Hk; [lia|].
  destruct (cellZ b r c) as [x|] eqn:E; [|lia].
  destruct (Z.eqb_spec x v) as [->|]; [|lia].
  destruct k as [|k].
  - simpl. now rewrite !Z.add_0_r.
  - specialize (IH (r + fst d)%Z (c + snd d)%Z k ltac:(lia)).
    rewrite <- IH. f_equal; rewrite Nat2Z.inj_succ; ring.
Qed.

Lemma run_from_max (b : list (list Z)) (v : Z) (d : Z * Z) (fuel : nat) :
  forall (r c : Z) (n : nat),
    n <= fuel ->
    (forall k, k < n ->
       cellZ b (r + Z.of_nat k * fst d) (c + Z.of_nat k * snd d) = Some v) ->
    n <= run_from b v r c d fuel.
Proof.
  induction fuel as [|fuel IH]; simpl; intros r c n Hn Hall; [lia|].
  destruct n as [|n]; [lia|].
  pose proof (Hall 0 ltac:(lia)) as H0. simpl in H0. rewrite !Z.add_0_r in H0.
  rewrite H0, Z.eqb_refl. apply le_n_S, IH; [lia|].
  intros k Hk. rewrite <- (Hall (S k)) by lia.
  f_equal; rewrite Nat2Z.inj_succ; ring.
Qed.

Lemma run_length_bound (nrows ncols : nat) (b : list (list Z)) (v wl : Z)
  (row col : nat) (d : Z * Z) (r0 c0 : Z) (n : nat) :
  wf_board nrows ncols b -> In d axes ->
  is_run b v wl row col d r0 c0 n ->
  n <= nrows + ncols /\
  (0 <= r0)%Z /\ (0 <= c0)%Z /\ Z.to_nat r0 < nrows /\ Z.to_nat c0 < ncols.
Proof.
  intros Hb Hd (_ & Hall & k & Hk & _).
  pose proof (Hall 0 ltac:(lia)) as H0. simpl in H0. rewrite !Z.add_0_r in H0.
  apply cellZ_some_nat in H0. destruct H0 as (Hr0 & Hc0 & H0).
  apply (cell_some_bounds _ _ _ _ _ _ Hb) in H0.
  pose proof (Hall (n - 1) ltac:(lia)) as Hn.
  apply cellZ_some_nat in Hn. destruct Hn as (Hrn & Hcn & Hn).
  apply (cell_some_bounds _ _ _ _ _ _ Hb) in Hn.
  simpl in Hd. destruct Hd as [<-|[<-|[<-|[<-|[]]]]]; simpl in *; lia.
Qed.

Lemma rescan_run_through (nrows ncols : nat) (b : list (list Z)) (wl : Z)
  (row col : nat) (v : Z) :
  wf_board nrows ncols b -> cell b row col = Some v ->
  (rescan nrows ncols b wl row col = true <-> run_through b v wl row col).
Proof.
  intros Hb Hcell. unfold rescan. rewrite Hcell. split.
  - intros H. apply existsb_exists in H. destruct H as (d & Hd & H).
    apply existsb_exists in H. destruct H as (r0 & _ & H).
    apply existsb_exists in H. destruct H as (c0 & _ & H).
    unfold rescan_start in H. apply andb_prop in H. destruct H as [Hwl H].
    apply existsb_exists in H. destruct H as (k & Hk & H).
    apply andb_prop in H. destruct H as [Hkr Hkc].
    apply in_seq in Hk. apply Z.leb_le in Hwl. apply Z.eqb_eq in Hkr, Hkc.
    exists d, (Z.of_nat r0), (Z.of_nat c0),
      (run_from b v (Z.of_nat r0) (Z.of_nat c0) d (nrows + ncols)).
    split; auto. split; auto. split.
    + intros j Hj. now apply run_from_all with (fuel := nrows + ncols).
    + exists k. split; [lia|]. auto.
  - intros (d & r0 & c0 & n & Hd & Hrun).
    destruct (run_length_bound _ _ _ _ _ _ _ _ _ _ _ Hb Hd Hrun)
      as (Hn & Hr0 & Hc0 & Hr0' & Hc0').
    destruct Hrun as (Hwl & Hall & k & Hk & Hkr & Hkc).
    pose proof (run_from_max b v d (nrows + ncols) r0 c0 n Hn Hall) as Hmax.
    apply existsb_exists. exists d. split; auto.
    apply existsb_exists. exists (Z.to_nat r0). split; [apply in_seq; lia|].
    apply existsb_exists. exists (Z.to_nat c0). split; [apply in_seq; lia|].
    unfold rescan_start. rewrite !Z2Nat.id by lia.
    apply andb_true_intro. split; [apply Z.leb_le; lia|].
    apply existsb_exists. exists k. split; [apply in_seq; lia|].
    apply andb_true_intro. split; apply Z.eqb_eq; auto.
Qed.

(** ** Indexing a well-formed board *)

Lemma norm_index_nat (n k : nat) :
  k < n -> Np.norm_index n (Z.of_nat k) = Some k.
Proof.
  intros Hk. unfold Np.norm_index.
  destruct (Z.leb_spec 0 (Z.of_nat k)), (Z.ltb_spec (Z.of_nat k) (Z.of_nat n));
    try lia.
  simpl. now rewrite Nat2Z.id.
Qed.

Lemma norm_index_in_range (n : nat) (i : Z) :
  (0 <= i < Z.of_nat n)%Z -> Np.norm_index n i = Some (Z.to_nat i).
Proof.
  intros Hi. unfold Np.norm_index.
  destruct (Z.leb_spec 0 i), (Z.ltb_spec i (Z.of_nat n)); try lia.
  reflexivity.
Qed.

Lemma norm_index_last (n : nat) :
  Np.norm_index n (-1) = if n =? 0 then None else Some (n - 1).
Proof.
  unfold Np.norm_index.
  destruct (Z.leb_spec 0 (-1)); [lia|]. cbn [andb].
  destruct (Z.leb_spec (- Z.of_nat n) (-1)), (Z.ltb_spec (-1) 0),
    (Nat.eqb_spec n 0); cbn [andb]; try lia; auto.
  f_equal; lia.
Qed.

Lemma getitem2_cell (nrows ncols : nat) (b : list (list Z)) (r : nat) (column : Z) :
  wf_board nrows ncols b -> r < nrows -> (0 <= column < Z.of_nat ncols)%Z ->
  Np.getitem2 b (Z.of_nat r) column = cell b r (Z.to_nat column).
Proof.
  intros Hb Hr Hc. unfold Np.getitem2, Np.getitem, cell.
  destruct (wf_board_nth _ _ _ _ Hb Hr) as (line & E & Hl).
  destruct Hb as [Hlen _].
  rewrite norm_index_nat by lia. rewrite E.
  rewrite norm_index_in_range by lia. reflexivity.
Qed.

Lemma getitem2_top (nrows ncols : nat) (b : list (list Z)) (column : Z) :
  wf_board nrows ncols b -> 0 < nrows -> (0 <= column < Z.of_nat ncols)%Z ->
  Np.getitem2 b (-1) column = cell b (nrows - 1) (Z.to_nat column).
Proof.
  intros Hb Hr Hc. unfold Np.getitem2, Np.getitem, cell.
  destruct (wf_board_nth _ _ _ (nrows - 1) Hb ltac:(lia)) as (line & E & Hl).
  destruct Hb as [Hlen _].
  rewrite norm_index_last, Hlen.
  destruct (Nat.eqb_spec nrows 0); [lia|]. rewrite E.
  rewrite norm_index_in_range by lia. reflexivity.
Qed.

Lemma getitem2_no_rows (b : list (list Z)) (ncols : nat) (column : Z) :
  wf_board 0 ncols b -> Np.getitem2 b (-1) column = None.
Proof.
  intros [Hlen _]. unfold Np.getitem2, Np.getitem.
  now rewrite norm_index_last, Hlen.
Qed.

Lemma getitem_top (nrows ncols : nat) (b : list (list Z)) :
  wf_board nrows ncols b ->
  Np.getitem b (-1) = if nrows =? 0 then None else nth_error b (nrows - 1).
Proof.
  intros [Hlen _]. unfold Np.getitem. rewrite norm_index_last, Hlen.
  now destruct (nrows =? 0).
Qed.

(** ** Writing one cell *)

Section SetCell.

Variables (nrows ncols : nat) (b : list (list Z)) (r c : nat) (x : Z).
Hypothesis Hb : wf_board nrows ncols b.
Hypothesis Hr : r < nrows.
Hypothesis Hc : c < ncols.

Lemma setitem2_eq :
  exists line, nth_error b r = Some line /\ length line = ncols /\
               Np.setitem2 b (Z.of_nat r) (Z.of_nat c) x = Np.set_nth b r (Np.set_nth line c x).
Proof using Hb Hr Hc.
  destruct (wf_board_nth _ _ _ _ Hb Hr) as (line & E & Hl).
  exists line. split; auto. split; auto.
  unfold Np.setitem2. destruct Hb as [Hlen _].
  rewrite norm_index_nat by lia. rewrite E.
  rewrite norm_index_nat by lia. reflexivity.
Qed.

Lemma setitem2_wf : wf_board nrows ncols (Np.setitem2 b (Z.of_nat r) (Z.of_nat c) x).
Proof using Hb Hr Hc.
  destruct setitem2_eq as (line & E & Hl & ->).
  destruct Hb as [Hlen Hall]. split.
  - now rewrite length_set_nth.
  - rewrite Forall_forall in *. intros l Hin.
    apply In_nth_error in Hin. destruct Hin as [k Hk].
    destruct (Nat.eq_dec r k) as [<-|Hne].
    + rewrite nth_error_set_nth_eq in Hk by lia.
      injection Hk as <-. now rewrite length_set_nth.
    + rewrite nth_error_set_nth_neq in Hk by exact Hne.
      apply Hall. eapply nth_error_In; eauto.
Qed.

Lemma setitem2_cell_same : cell (Np.setitem2 b (Z.of_nat r) (Z.of_nat c) x) r c = Some x.
Proof using Hb Hr Hc.
  destruct setitem2_eq as (line & E & Hl & ->).
  destruct Hb as [Hlen _]. unfold cell.
  rewrite nth_error_set_nth_eq by lia.
  apply nth_error_set_nth_eq. lia.
Qed.

Lemma setitem2_cell_other (r' c' : nat) :
  (r', c') <> (r, c) -> cell (Np.setitem2 b (Z.of_nat r) (Z.of_nat c) x) r' c' = cell b r' c'.
Proof using Hb Hr Hc.
  intros Hne. destruct setitem2_eq as (line & E & Hl & ->).
  unfold cell. destruct (Nat.eq_dec r r') as [<-|Hr'].
  - destruct Hb as [Hlen _].
    rewrite nth_error_set_nth_eq by lia. rewrite E.
    apply nth_error_set_nth_neq. congruence.
  - now rewrite nth_error_set_nth_neq.
Qed.

End SetCell.

(** ** Counting cells *)

Lemma count_row_set_nth (f : Z -> bool) (line : list Z) (c : nat) (x old : Z) :
  nth_error line c = Some old ->
  count_row f (Np.set_nth line c x) + (if f old then 1 else 0) =
  count_row f line + (if f x then 1 else 0).
Proof.
  unfold count_row. revert c.
  induction line as [|h t IH]; intros [|c] E; simpl in *; try discriminate.
  - injection E as ->. destruct (f x), (f old); simpl; lia.
  - specialize (IH c E). destruct (f h); simpl; lia.
Qed.

Lemma count_cells_set_nth (f : Z -> bool) (b : list (list Z)) (r : nat)
  (line line' : list Z) :
  nth_error b r = Some line ->
  count_cells f (Np.set_nth b r line') + count_row f line =
  count_cells f b + count_row f line'.
Proof.
  unfold count_cells. revert r.
  induction b as [|h t IH]; intros [|r] E; simpl in *; try discriminate.
  - injection E as ->. lia.
  - specialize (IH r E). lia.
Qed.

Lemma setitem2_count (f : Z -> bool) (nrows ncols : nat) (b : list (list Z))
  (r c : nat) (x old : Z) :
  wf_board nrows ncols b -> cell b r c = Some old ->
  count_cells f (Np.setitem2 b (Z.of_nat r) (Z.of_nat c) x)
  + (if f old then 1 else 0) =
  count_cells f b + (if f x then 1 else 0).
Proof.
  intros Hb Hcell.
  destruct (cell_some_bounds _ _ _ _ _ _ Hb Hcell) as [Hr Hc].
  destruct (setitem2_eq _ _ b r c x Hb Hr Hc) as (line & E & Hl & ->).
  unfold cell in Hcell. rewrite E in Hcell.
  pose proof (count_cells_set_nth f b r line (Np.set_nth line c x) E).
  pose proof (count_row_set_nth f line c x old Hcell).
  lia.
Qed.

Lemma count_cells_zeros (f : Z -> bool) (nrows ncols : nat) :
  f 0%Z = false -> count_cells f (Np.zeros nrows ncols) = 0.
Proof.
  intros Hf. unfold count_cells, Np.zeros.
  assert (count_row f (repeat 0%Z ncols) = 0) as Hrow.
  { unfold count_row. induction ncols as [|n IH]; simpl; auto. now rewrite Hf. }
  induction nrows as [|n IH]; simpl; auto. rewrite Hrow, IH. reflexivity.
Qed.

Lemma count_cells_full (nrows ncols : nat) (b : list (list Z)) :
  wf_board nrows ncols b -> board_full b = true ->
  count_occupied b = nrows * ncols.
Proof.
  intros [Hlen Hall]. subst nrows. unfold board_full, count_occupied, count_cells.
  induction Hall as [|line b Hl Hall IH]; simpl; auto.
  intros H. apply andb_prop in H. destruct H as [H1 H2].
  rewrite IH by exact H2. f_equal.
  unfold count_row. rewrite <- Hl. clear - H1.
  induction line as [|x t IHt]; simpl in *; auto.
  apply andb_prop in H1. destruct H1 as [-> H1]. simpl. now rewrite IHt.
Qed.

Lemma count_row_le (f : Z -> bool) (line : list Z) :
  count_row f line <= length line.
Proof. unfold count_row. apply filter_length_le. Qed.

Lemma count_row_all (line : list Z) :
  count_row occupied line = length line -> forallb occupied line = true.
Proof.
  unfold count_row. induction line as [|x t IH]; simpl; auto.
  pose proof (filter_length_le occupied t).
  destruct (occupied x); simpl; intros H'; [apply IH; lia | lia].
Qed.

Lemma count_cells_all (nrows ncols : nat) (b : list (list Z)) :
  wf_board nrows ncols b -> count_occupied b = nrows * ncols ->
  board_full b = true.
Proof.
  intros [Hlen Hall]. subst nrows. unfold board_full, count_occupied, count_cells.
  induction Hall as [|line b Hl Hall IH]; simpl; auto.
  intros H.
  pose proof (count_row_le occupied line) as H1.
  assert (list_sum (map (count_row occupied) b) <= length b * ncols) as H2.
  { clear - Hall. induction Hall as [|l b Hl Hall IH]; simpl; auto.
    pose proof (count_row_le occupied l). lia. }
  rewrite count_row_all by lia. simpl. apply IH. lia.
Qed.

Lemma pieces_only_zeros (nrows ncols : nat) : pieces_only (Np.zeros nrows ncols).
Proof.
  unfold pieces_only, Np.zeros.
  apply Forall_forall. intros line Hin. apply repeat_spec in Hin. subst line.
  apply Forall_forall. intros x Hin. apply repeat_spec in Hin. now subst x.
Qed.

Lemma Forall_set_nth {A : Type} (P : A -> Prop) (l : list A) (k : nat) (x : A) :
  Forall P l -> P x -> Forall P (Np.set_nth l k x).
Proof.
  intros Hl Hx. revert k.
  induction Hl as [|h t Hh Ht IH]; intros [|k]; simpl; auto.
Qed.

Lemma setitem2_pieces_only (nrows ncols : nat) (b : list (list Z))
  (r c : nat) (x : Z) :
  wf_board nrows ncols b -> r < nrows -> c < ncols ->
  pieces_only b -> is_piece x = true ->
  pieces_only (Np.setitem2 b (Z.of_nat r) (Z.of_nat c) x).
Proof.
  intros Hb Hr Hc Hp Hx.
  destruct (setitem2_eq _ _ b r c x Hb Hr Hc) as (line & E & Hl & ->).
  unfold pieces_only in *. apply Forall_set_nth; auto.
  apply Forall_set_nth; auto.
  rewrite Forall_forall in Hp. apply Hp. eapply nth_error_In; eauto.
Qed.

Lemma wf_board_zeros (nrows ncols : nat) : wf_board nrows ncols (Np.zeros nrows ncols).
Proof.
  unfold Np.zeros. split.
  - apply repeat_length.
  - apply Forall_forall. intros line Hin. apply repeat_spec in Hin. subst line.
    apply repeat_length.
Qed.

(** ** The lowest empty row of a column *)

Lemma find_seq_first (f : nat -> bool) (n : nat) :
  forall a r, find f (seq a n) = Some r ->
    a <= r < a + n /\ f r = true /\ forall r', a <= r' < r -> f r' = false.
Proof.
  induction n as [|n IH]; simpl; intros a r H; [discriminate|].
  destruct (f a) eqn:E.
  - injection H as <-. repeat split; auto; lia.
  - destruct (IH (S a) r H) as (Hr & Hf & Hlow).
    repeat split; auto; try lia.
    intros r' Hr'. destruct (Nat.eq_dec r' a) as [->|]; auto.
    apply Hlow. lia.
Qed.

Lemma lowest_empty_some (b : list (list Z)) (nrows c r : nat) :
  lowest_empty b nrows c = Some r ->
  r < nrows /\ cell b r c = Some 0%Z /\
  forall r', r' < r -> is_empty_at b c r' = false.
Proof.
  intros H. apply find_seq_first in H. destruct H as (Hr & Hf & Hlow).
  repeat split; try lia.
  - unfold is_empty_at in Hf. destruct (cell b r c) as [x|]; [|discriminate].
    apply Z.eqb_eq in Hf. now subst x.
  - intros r' Hr'. apply Hlow. lia.
Qed.

Lemma lowest_empty_none (b : list (list Z)) (nrows c : nat) :
  lowest_empty b nrows c = None ->
  forall r, r < nrows -> is_empty_at b c r = false.
Proof.
  intros H r Hr. unfold lowest_empty in H.
  apply (find_none _ _ H). apply in_seq. lia.
Qed.

Lemma lowest_empty_exists (b : list (list Z)) (nrows c r : nat) :
  r < nrows -> is_empty_at b c r = true ->
  exists r0, lowest_empty b nrows c = Some r0.
Proof.
  intros Hr He. destruct (lowest_empty b nrows c) as [r0|] eqn:E; eauto.
  rewrite (lowest_empty_none _ _ _ E r Hr) in He. discriminate.
Qed.

Lemma column_full_none (nrows ncols : nat) (b : list (list Z)) (c : nat) :
  wf_board nrows ncols b -> column_full b c -> lowest_empty b nrows c = None.
Proof.
  intros [Hlen _] Hfull.
  destruct (lowest_empty b nrows c) as [r|] eqn:E; auto.
  apply lowest_empty_some in E. destruct E as (Hr & Hcell & _).
  exfalso. apply (Hfull r); [lia | exact Hcell].
Qed.

Lemma column_full_top (nrows ncols : nat) (b : list (list Z)) (c : nat) :
  wf_board nrows ncols b -> column_full b c ->
  is_empty_at b c (nrows - 1) = false.
Proof.
  intros Hb Hfull. unfold is_empty_at.
  destruct (cell b (nrows - 1) c) as [x|] eqn:E; auto.
  destruct (Z.eqb_spec x 0) as [->|]; auto.
  exfalso. apply (Hfull (nrows - 1)); auto.
  destruct (cell_some_bounds _ _ _ _ _ _ Hb E). destruct Hb as [Hlen _]. lia.
Qed.

(** ** Gravity *)

Lemma cell_zeros (nrows ncols r c : nat) (x : Z) :
  cell (Np.zeros nrows ncols) r c = Some x -> x = 0%Z.
Proof.
  unfold cell, Np.zeros. intros H.
  destruct (nth_error (repeat (repeat 0%Z ncols) nrows) r) as [line|] eqn:E;
    [|discriminate].
  apply nth_error_In, repeat_spec in E. subst line.
  apply nth_error_In, repeat_spec in H. exact H.
Qed.

Lemma gravity_zeros (nrows ncols : nat) : gravity (Np.zeros nrows ncols).
Proof. intros r r' c x _ _ H. eapply cell_zeros; eauto. Qed.

Lemma setitem2_gravity (nrows ncols : nat) (b : list (list Z)) (r c : nat) (x : Z) :
  wf_board nrows ncols b -> r < nrows -> c < ncols -> x <> 0%Z ->
  cell b r c = Some 0%Z ->
  (forall r', r' < r -> is_empty_at b c r' = false) ->
  gravity b ->
  gravity (Np.setitem2 b (Z.of_nat r) (Z.of_nat c) x).
Proof.
  intros Hb Hr Hc Hx Hcell Hlow Hg r1 r2 c1 y Hlt H1 H2.
  assert ((r1, c1) <> (r, c)) as Hne1.
  { intros [= -> ->]. rewrite (setitem2_cell_same _ _ b r c x Hb Hr Hc) in H1.
    congruence. }
  rewrite (setitem2_cell_other _ _ b r c x Hb Hr Hc _ _ Hne1) in H1.
  destruct (Nat.eq_dec r2 r) as [->|Hr2].
  - destruct (Nat.eq_dec c1 c) as [->|Hc1].
    + specialize (Hlow r1 Hlt). unfold is_empty_at in Hlow.
      rewrite H1 in Hlow. discriminate.
    + rewrite (setitem2_cell_other _ _ b r c x Hb Hr Hc) in H2 by congruence.
      eapply Hg; eauto.
  - rewrite (setitem2_cell_other _ _ b r c x Hb Hr Hc) in H2 by congruence.
    eapply Hg; eauto.
Qed.

Lemma gravity_column_full (nrows ncols : nat) (b : list (list Z)) (c : nat) :
  wf_board nrows ncols b -> gravity b -> 0 < nrows -> c < ncols ->
  (column_full b c <-> is_empty_at b c (nrows - 1) = false).
Proof.
  intros Hb Hg Hrows Hc. split; [now apply (column_full_top nrows ncols)|].
  intros Htop r Hr Hcell. destruct Hb as [Hlen Hall].
  destruct (cell_in_bounds nrows ncols b (nrows - 1) c (conj Hlen Hall)
              ltac:(lia) Hc) as [x Hx].
  unfold is_empty_at in Htop. rewrite Hx in Htop.
  destruct (Nat.eq_dec r (nrows - 1)) as [->|Hne].
  - rewrite Hx in Hcell. injection Hcell as ->. discriminate.
  - assert (x = 0%Z) as -> by (apply (Hg r (nrows - 1) c x); auto; lia).
    discriminate.
Qed.

(** ** The mutators and the legality guard *)

Section Moves.

Variable policy : Type.
Variable opponent : policy -> ObsType -> list bool -> Z * policy.

Implicit Types s : env policy.

Lemma contains_range (n : nat) (x : Z) :
  contains n x = true <-> (0 <= x < Z.of_nat n)%Z.
Proof.
  unfold contains. rewrite andb_true_iff, Z.leb_le, Z.ltb_lt. tauto.
Qed.

Lemma move_loop_eq (column piece : Z) (range : list nat) s :
  wf s -> (0 <= column < Z.of_nat (columns s))%Z ->
  Forall (fun r => r < rows s) range ->
  _move_loop column piece range s =
  match find (is_empty_at (_board s) (Z.to_nat column)) range with
  | Some r =>
      (Ok r, set_board s (Np.setitem2 (_board s) (Z.of_nat r) column piece))
  | None => (Err InvalidMove, s)
  end.
Proof.
  intros Hwf Hcol Hrange.
  induction Hrange as [|r range Hr Hrange IH]; [reflexivity|].
  cbn [_move_loop find]. cbv [bind gets index].
  rewrite (getitem2_cell _ _ _ _ _ Hwf Hr Hcol).
  unfold is_empty_at at 1.
  destruct (cell_in_bounds _ _ (_board s) r (Z.to_nat column) Hwf Hr ltac:(lia))
    as [x ->].
  cbv [ret]. destruct (x =? 0)%Z; [reflexivity|]. exact IH.
Qed.

Lemma move_eq (column piece : Z) s :
  wf s -> (0 <= column < Z.of_nat (columns s))%Z ->
  _move column piece s =
  match lowest_empty (_board s) (rows s) (Z.to_nat column) with
  | Some r =>
      (Ok r,
       set_board (set_num_moves s (S (_num_moves s)))
                 (Np.setitem2 (_board s) (Z.of_nat r) column piece))
  | None => (Err InvalidMove, set_num_moves s (S (_num_moves s)))
  end.
Proof.
  intros Hwf Hcol. unfold _move. cbv [bind modify gets].
  rewrite move_loop_eq; [reflexivity | exact Hwf | exact Hcol |].
  apply Forall_forall. intros r Hr. apply in_seq in Hr.
  change (0 <= r < 0 + rows s) in Hr. change (r < rows s). lia.
Qed.

Lemma illegal_out_of_range (column : Z) s :
  contains (columns s) column = false -> illegal column s = (Ok true, s).
Proof. intros H. unfold illegal. cbv [bind gets]. now rewrite H. Qed.

Lemma illegal_in_range (column : Z) s :
  wf s -> 0 < rows s -> contains (columns s) column = true ->
  illegal column s =
  (Ok (negb (is_empty_at (_board s) (Z.to_nat column) (rows s - 1))), s).
Proof.
  intros Hwf Hrows Hc. unfold illegal. cbv [bind gets index]. rewrite Hc.
  apply contains_range in Hc. cbn [negb].
  rewrite (getitem2_top _ _ _ _ Hwf Hrows Hc). unfold is_empty_at.
  destruct (cell_in_bounds _ _ (_board s) (rows s - 1) (Z.to_nat column) Hwf
              ltac:(lia) ltac:(lia)) as [x ->].
  reflexivity.
Qed.

Lemma illegal_no_rows (column : Z) s :
  wf s -> rows s = 0 -> contains (columns s) column = true ->
  illegal column s = (Err IndexError, s).
Proof.
  intros Hwf Hrows Hc. unfold illegal. cbv [bind gets index]. rewrite Hc.
  cbn [negb]. unfold wf in Hwf. rewrite Hrows in Hwf.
  now rewrite (getitem2_no_rows _ _ _ Hwf).
Qed.

Lemma illegal_state (column : Z) s : snd (illegal column s) = s.
Proof.
  unfold illegal. cbv [bind gets index ret raise].
  destruct (negb _); [reflexivity|].
  destruct (Np.getitem2 _ _ _); reflexivity.
Qed.

(** A passed guard: the column is in range, the board has a row, and the
    top cell of the column is empty. *)
Lemma illegal_false (column : Z) s :
  wf s -> illegal column s = (Ok false, s) ->
  (0 <= column < Z.of_nat (columns s))%Z /\ 0 < rows s /\
  cell (_board s) (rows s - 1) (Z.to_nat column) = Some 0%Z.
Proof.
  intros Hwf H.
  destruct (contains (columns s) column) eqn:Hc.
  2:{ rewrite illegal_out_of_range in H by exact Hc. discriminate. }
  destruct (Nat.eq_dec (rows s) 0) as [H0|H0].
  { rewrite illegal_no_rows in H by auto. discriminate. }
  rewrite illegal_in_range in H by (auto; lia).
  split; [now apply contains_range|]. split; [lia|].
  injection H as H. apply negb_false_iff in H. unfold is_empty_at in H.
  destruct (cell _ _ _) as [x|]; [|discriminate].
  apply Z.eqb_eq in H. now subst x.
Qed.

End Moves.

(** ** Effect of a move, and the invariant *)

Section Invariant.

Variable policy : Type.
Variable opponent : policy -> ObsType -> list bool -> Z * policy.

Implicit Types s : env policy.

Lemma guarded_move (column piece : Z) s :
  wf s -> illegal column s = (Ok false, s) ->
  exists r,
    lowest_empty (_board s) (rows s) (Z.to_nat column) = Some r /\
    _move column piece s =
    (Ok r, set_board (set_num_moves s (S (_num_moves s)))
                     (Np.setitem2 (_board s) (Z.of_nat r) column piece)).
Proof.
  intros Hwf Hg. destruct (illegal_false _ _ _ Hwf Hg) as (Hc & Hrows & Htop).
  destruct (lowest_empty_exists (_board s) (rows s) (Z.to_nat column) (rows s - 1))
    as [r Hr]; [lia | unfold is_empty_at; now rewrite Htop |].
  exists r. split; auto. rewrite move_eq by auto. now rewrite Hr.
Qed.

Lemma move_result (column piece : Z) s (r : nat) s' :
  wf s -> (0 <= column < Z.of_nat (columns s))%Z ->
  _move column piece s = (Ok r, s') ->
  lowest_empty (_board s) (rows s) (Z.to_nat column) = Some r /\
  s' = set_board (set_num_moves s (S (_num_moves s)))
                 (Np.setitem2 (_board s) (Z.of_nat r) (Z.of_nat (Z.to_nat column)) piece).
Proof.
  intros Hwf Hc H. rewrite move_eq in H by auto.
  destruct (lowest_empty _ _ _) as [r0|]; [|discriminate].
  injection H as -> <-. rewrite Z2Nat.id by lia. auto.
Qed.

Lemma move_invariant (column piece : Z) s (r : nat) s' :
  invariant s -> (0 <= column < Z.of_nat (columns s))%Z ->
  is_piece piece = true -> piece <> 0%Z ->
  _move column piece s = (Ok r, s') -> invariant s'.
Proof.
  intros (Hwf & Hp & Hn & Hg) Hc Hpiece Hnz H.
  destruct (move_result _ _ _ _ _ Hwf Hc H) as (Hlow & ->).
  apply lowest_empty_some in Hlow. destruct Hlow as (Hr & Hcell & Hlow).
  assert (Z.to_nat column < columns s) as Hc' by lia.
  unfold invariant, wf. simpl. split; [|split; [|split]].
  - apply (setitem2_wf _ _ _ _ _ _ Hwf Hr Hc').
  - eapply setitem2_pieces_only; eauto.
  - pose proof (setitem2_count occupied _ _ _ _ _ piece _ Hwf Hcell) as Hcount.
    assert (occupied piece = true) as Ho
      by (unfold occupied; now destruct (Z.eqb_spec piece 0)).
    rewrite Ho in Hcount. change (occupied 0) with false in Hcount.
    unfold count_occupied in *. lia.
  - apply (setitem2_gravity _ _ _ _ _ piece Hwf Hr Hc' Hnz Hcell Hlow Hg).
Qed.

Lemma opponent_move_no_rows s :
  wf s -> rows s = 0 -> _opponent_move opponent s = (Err IndexError, s).
Proof.
  intros Hwf H0. unfold _opponent_move, _get_observation, action_masks.
  cbv [bind gets index ret raise].
  rewrite (getitem_top _ _ _ Hwf), H0. reflexivity.
Qed.

Lemma opponent_move_eq s :
  wf s -> 0 < rows s ->
  _opponent_move opponent s =
  let c := fst (opponent_choice opponent s) in
  let s1 := set_opponent s (snd (opponent_choice opponent s)) in
  if negb (contains (columns s) c)
     || negb (is_empty_at (_board s) (Z.to_nat c) (rows s - 1))
  then (Err (InvalidOpponentMove c), s1)
  else
    match _move c (-1) s1 with
    | (Ok r, s2) => (Ok (r, c), s2)
    | (Err e, s2) => (Err e, s2)
    end.
Proof.
  intros Hwf Hrows. unfold opponent_choice.
  unfold _opponent_move at 1, _get_observation, action_masks.
  cbv [bind gets index ret raise].
  pose proof (getitem_top _ _ _ Hwf) as Htop.
  destruct (Nat.eqb_spec (rows s) 0); [lia|].
  destruct (wf_board_nth _ _ _ (rows s - 1) Hwf ltac:(lia)) as (top & Etop & _).
  rewrite Htop, Etop.
  destruct (opponent _ _ _) as [c p]. cbn [fst snd].
  destruct (contains (columns s) c) eqn:Hc.
  - rewrite (illegal_in_range _ c (set_opponent s p)) by auto.
    cbn [negb orb]. change (_board (set_opponent s p)) with (_board s).
    change (rows (set_opponent s p)) with (rows s).
    destruct (negb _); [reflexivity|].
    destruct (_move c (-1) (set_opponent s p)) as [[r|e] s2]; reflexivity.
  - rewrite (illegal_out_of_range _ c (set_opponent s p)) by auto.
    reflexivity.
Qed.

Lemma opponent_move_invariant s r s' :
  invariant s -> _opponent_move opponent s = (r, s') -> invariant s'.
Proof.
  intros Hinv H. pose proof Hinv as (Hwf & _).
  destruct (Nat.eq_dec (rows s) 0) as [H0|H0].
  { rewrite opponent_move_no_rows in H by auto. now injection H as _ <-. }
  rewrite opponent_move_eq in H by (auto; lia). cbv zeta in H.
  set (c := fst (opponent_choice opponent s)) in *.
  set (s1 := set_opponent s (snd (opponent_choice opponent s))) in *.
  assert (invariant s1) as Hinv1 by exact Hinv.
  destruct (contains (columns s) c) eqn:Hc; cbn [negb orb] in H.
  2:{ now injection H as _ <-. }
  destruct (is_empty_at (_board s) (Z.to_nat c) (rows s - 1)) eqn:Etop;
    cbn [negb] in H.
  2:{ now injection H as _ <-. }
  apply contains_range in Hc.
  destruct (_move c (-1) s1) as [[r0|e] s2] eqn:Hm.
  - injection H as _ <-.
    apply (move_invariant c (-1) s1 r0 s2 Hinv1 Hc eq_refl ltac:(discriminate) Hm).
  - rewrite move_eq in Hm by auto.
    destruct (lowest_empty_exists (_board s) (rows s) (Z.to_nat c) (rows s - 1)
                ltac:(lia) Etop) as [r0 Hr0].
    change (_board s1) with (_board s) in Hm.
    change (rows s1) with (rows s) in Hm.
    rewrite Hr0 in Hm. discriminate.
Qed.

End Invariant.

(** ** [step] and [reset] unfolded *)

Section Episode.

Variable policy : Type.
Variable opponent : policy -> ObsType -> list bool -> Z * policy.

Implicit Types s : env policy.

Lemma is_win_state (row col : nat) s : snd (_is_win row col s) = s.
Proof.
  unfold _is_win. cbv [bind gets index ret raise].
  destruct (col <? columns s); [|reflexivity]. cbv beta iota.
  destruct (Z.geb _ _); [reflexivity|].
  destruct (nth_error (_board s) row); [|reflexivity]. cbv beta iota.
  destruct (Z.geb _ _); [reflexivity|].
  destruct (Z.geb _ _); reflexivity.
Qed.

Lemma is_win_total (row col : nat) s :
  wf s -> row < rows s -> col < columns s ->
  exists w, _is_win row col s = (Ok w, s).
Proof.
  intros Hwf Hrow Hcol.
  destruct (wf_board_nth _ _ _ _ Hwf Hrow) as (line & E & _).
  unfold _is_win. cbv [bind gets index ret raise].
  destruct (Nat.ltb_spec col (columns s)); [|lia]. cbv beta iota.
  destruct (Z.geb _ _); [eauto|]. rewrite E. cbv beta iota.
  destruct (Z.geb _ _); [eauto|].
  destruct (Z.geb _ _); eauto.
Qed.

Lemma get_observation_eq (player : Z) s :
  _get_observation player s = (Ok (planes player (_board s)), s).
Proof. reflexivity. Qed.

Lemma opponent_turn_eq s :
  opponent_turn opponent s =
  match _opponent_move opponent s with
  | (Err e, s2) => (Err e, s2)
  | (Ok (orow, ocol), s2) =>
      match _is_win orow (Z.to_nat ocol) s2 with
      | (Err e, _) => (Err e, s2)
      | (Ok true, _) => (Ok (StepResult (planes 1 (_board s2)) (-1) true false), s2)
      | (Ok false, _) =>
          if is_full s2
          then (Ok (StepResult (planes 1 (_board s2)) 0 true false), s2)
          else (Ok (StepResult (planes 1 (_board s2)) 0 false false), s2)
      end
  end.
Proof.
  unfold opponent_turn. cbv [bind].
  destruct (_opponent_move opponent s) as [[[orow ocol]|e] s2]; [|reflexivity].
  cbn [fst snd].
  pose proof (is_win_state orow (Z.to_nat ocol) s2) as Hs.
  destruct (_is_win orow (Z.to_nat ocol) s2) as [[[|]|e] s3];
    simpl in Hs; subst s3; try reflexivity.
  cbv [gets]. unfold is_full.
  destruct (_num_moves s2 =? rows s2 * columns s2); reflexivity.
Qed.

Lemma step_eq (action : Z) s :
  step opponent action s =
  match illegal action s with
  | (Err e, _) => (Err e, s)
  | (Ok true, _) => (Err InvalidAction, s)
  | (Ok false, _) =>
      match _move action 1 s with
      | (Err e, s1) => (Err e, s1)
      | (Ok row, s1) =>
          match _is_win row (Z.to_nat action) s1 with
          | (Err e, _) => (Err e, s1)
          | (Ok true, _) => (Ok (StepResult (planes 1 (_board s1)) 1 true false), s1)
          | (Ok false, _) =>
              if is_full s1
              then (Ok (StepResult (planes 1 (_board s1)) 0 true false), s1)
              else opponent_turn opponent s1
          end
      end
  end.
Proof.
  unfold step, opponent_turn. cbv [bind].
  pose proof (illegal_state _ action s) as Hs.
  destruct (illegal action s) as [[[|]|e] s0]; simpl in Hs; subst s0;
    try reflexivity.
  destruct (_move action 1 s) as [[row|e] s1]; [|reflexivity].
  pose proof (is_win_state row (Z.to_nat action) s1) as Hs.
  destruct (_is_win row (Z.to_nat action) s1) as [[[|]|e] s2];
    simpl in Hs; subst s2; try reflexivity.
  cbv [gets]. unfold is_full.
  destruct (_num_moves s1 =? rows s1 * columns s1); reflexivity.
Qed.

Lemma reset_eq (fresh : policy) (coin : bool) s0 :
  reset opponent fresh coin s0 =
  let s := Env (rows s0) (columns s0) (win_length s0) fresh
               (Np.zeros (rows s0) (columns s0)) 0 in
  if coin then
    match _opponent_move opponent s with
    | (Ok _, s1) => (Ok (planes 1 (_board s1)), s1)
    | (Err e, s1) => (Err e, s1)
    end
  else (Ok (planes 1 (_board s)), s).
Proof.
  unfold reset. cbv [bind modify ret].
  destruct coin; [|reflexivity].
  unfold set_num_moves, set_board, set_opponent.
  cbn [rows columns win_length _opponent _board _num_moves].
  destruct (_opponent_move opponent _) as [[om|e] s1]; reflexivity.
Qed.

Lemma invariant_cleared (nrows ncols : nat) (wl : Z) (p : policy) :
  invariant (Env nrows ncols wl p (Np.zeros nrows ncols) 0).
Proof.
  split; [|split; [|split]]; simpl.
  - apply wf_board_zeros.
  - apply pieces_only_zeros.
  - apply count_cells_zeros. reflexivity.
  - apply gravity_zeros.
Qed.

Lemma reset_invariant (fresh : policy) (coin : bool) s0 r s :
  reset opponent fresh coin s0 = (r, s) -> invariant s.
Proof.
  rewrite reset_eq. cbv zeta.
  pose proof (invariant_cleared (rows s0) (columns s0) (win_length s0) fresh) as Hi.
  destruct coin.
  - destruct (_opponent_move opponent _) as [[om|e] s1] eqn:E;
      intros [= _ <-]; eapply opponent_move_invariant; eauto.
  - now intros [= _ <-].
Qed.

Lemma opponent_turn_invariant s r s' :
  invariant s -> opponent_turn opponent s = (r, s') -> invariant s'.
Proof.
  intros Hinv. rewrite opponent_turn_eq.
  destruct (_opponent_move opponent s) as [[[orow ocol]|e] s2] eqn:E.
  - pose proof (opponent_move_invariant _ opponent _ _ _ Hinv E) as Hinv2.
    destruct (_is_win _ _ _) as [[[|]|e] s3]; [| |now intros [= _ <-]].
    + now intros [= _ <-].
    + destruct (is_full s2); now intros [= _ <-].
  - intros [= _ <-]. eapply opponent_move_invariant; eauto.
Qed.

Lemma step_invariant (action : Z) s r s' :
  invariant s -> step opponent action s = (r, s') -> invariant s'.
Proof.
  intros Hinv. pose proof Hinv as (Hwf & _). rewrite step_eq.
  destruct (illegal action s) as [[[|]|e] s0] eqn:Hg;
    try (now intros [= _ <-]).
  pose proof (illegal_state _ action s) as Hs. rewrite Hg in Hs.
  simpl in Hs. subst s0.
  destruct (illegal_false _ _ _ Hwf Hg) as (Hc & _ & _).
  destruct (guarded_move _ action 1 s Hwf Hg) as (row & _ & Hm).
  rewrite Hm.
  pose proof (move_invariant _ action 1 s row _ Hinv Hc eq_refl
                ltac:(discriminate) Hm) as Hinv1.
  destruct (_is_win _ _ _) as [[[|]|e] s3]; try (now intros [= _ <-]).
  destruct (is_full _); [now intros [= _ <-]|].
  apply opponent_turn_invariant. exact Hinv1.
Qed.

Theorem reachable_invariant s : reachable opponent s -> invariant s.
Proof.
  induction 1 as [s0 fresh coin r s H | s action r s' _ IH H].
  - eapply reset_invariant; eauto.
  - eapply step_invariant; eauto.
Qed.

End Episode.

(** ** The example games are reachable *)

Lemma game0_reachable : reachable fixed_opponent game0.
Proof.
  apply reach_reset with (s0 := fresh_env 0%Z) (fresh := 0%Z) (coin := false)
                         (r := Ok (planes 1 (_board game0))).
  reflexivity.
Qed.

Lemma play_reachable (actions : list Z) :
  forall s, reachable fixed_opponent s -> reachable fixed_opponent (play actions s).
Proof.
  induction actions as [|a actions IH]; intros s Hs; [exact Hs|].
  simpl. apply IH.
  apply reach_step with (s := s) (action := a)
                        (r := fst (step fixed_opponent a s)); [exact Hs|].
  now destruct (step fixed_opponent a s).
Qed.

Lemma three_game_reachable : reachable fixed_opponent three_game.
Proof. exact (play_reachable [3; 3; 3]%Z game0 game0_reachable). Qed.

Lemma won_game_reachable : reachable fixed_opponent won_game.
Proof. exact (play_reachable [3; 3; 3; 3]%Z game0 game0_reachable). Qed.

(** * Specification properties *)

(** ** The incremental check against the rescan *)

Lemma is_win_rescan (policy : Type) (s : env policy)
  (row col : nat) (v : Z) :
  wf s ->
  cell (_board s) row col = Some v ->
  v <> 0%Z ->
  (forall r, row < r -> r < rows s -> cell (_board s) r col = Some 0%Z) ->
  _is_win row col s =
  (Ok (rescan (rows s) (columns s) (_board s) (win_length s) row col), s)
  /\ (rescan (rows s) (columns s) (_board s) (win_length s) row col = true <->
      run_through (_board s) v (win_length s) row col).
Proof.
  intros Hwf Hcell Hv Habove.
  assert (forall r, row < r -> cell (_board s) r col <> Some v) as Habove'.
  { intros r Hr Hc.
    destruct (cell_some_bounds _ _ _ _ _ _ Hwf Hc) as [Hr' _].
    rewrite (Habove r Hr Hr') in Hc. congruence. }
  destruct (is_win_run_through policy s row col v Hwf Hcell Habove')
    as (w & Hw & Hiff).
  pose proof (rescan_run_through _ _ _ (win_length s) row col v Hwf Hcell) as Hres.
  split; [|exact Hres].
  rewrite Hw. f_equal. f_equal.
  destruct w, (rescan _ _ _ _ _ _); auto.
  - symmetry. apply Hres, Hiff. reflexivity.
  - apply Hiff, Hres. reflexivity.
Qed.

(** C1. On a well-formed board (every reachable state has one, see
    [reachable_invariant]), at a cell [(row, col)] that holds a piece [v]
    and has only empty cells above it in its column, the incremental check
    [_is_win] returns without error, leaves the state alone, and its answer
    is the answer of the full-board rescan: [true] exactly when some run of
    at least [win_length] cells of value [v] along the vertical, the
    horizontal or one of the two diagonals goes through [(row, col)]. *)
Theorem check_win_at_iff_rescan (policy : Type) (s : env policy)
  (row col : nat) (v : Z) :
  wf s ->
  cell (_board s) row col = Some v ->
  v <> 0%Z ->
  (forall r, row < r -> r < rows s -> cell (_board s) r col = Some 0%Z) ->
  _is_win row col s =
  (Ok (rescan (rows s) (columns s) (_board s) (win_length s) row col), s)
  /\ (rescan (rows s) (columns s) (_board s) (win_length s) row col = true <->
      run_through (_board s) v (win_length s) row col).
Proof. apply is_win_rescan. Qed.

Lemma check_win_at_iff_rescan_witness :
  _is_win 3 3 won_game = (Ok (rescan 6 7 (_board won_game) 4 3 3), won_game) /\
  rescan 6 7 (_board won_game) 4 3 3 = true.
Proof.
  split; [|vm_compute; reflexivity].
  refine (proj1 (check_win_at_iff_rescan Z won_game 3 3 1%Z _ _ _ _)).
  - split; [reflexivity | repeat constructor].
  - reflexivity.
  - discriminate.
  - intros r H1 H2. change (rows won_game) with 6 in H2.
    assert (r = 4 \/ r = 5) as [-> | ->] by lia; reflexivity.
Defined.

(** C9. On a board with at least one row, [action_masks] returns a vector
    of length [columns] that is [true] at column [c] exactly when the
    top-row cell (row [rows - 1]) of [c] is empty; on a completely full
    board it is [false] everywhere.  The call does not change the state. *)
Theorem action_masks_top_row (policy : Type) (s : env policy) :
  wf s -> 0 < rows s ->
  exists mask,
    action_masks s = (Ok mask, s) /\
    length mask = columns s /\
    (forall c, c < columns s ->
       (nth_error mask c = Some true <->
        cell (_board s) (rows s - 1) c = Some 0%Z)) /\
    (board_full (_board s) = true ->
     forall c, c < columns s -> nth_error mask c = Some false).
Proof.
  intros Hwf Hrows.
  destruct (wf_board_nth _ _ _ (rows s - 1) Hwf ltac:(lia)) as (top & Etop & Hlen).
  exists (Np.eq_scalar 0 top).
  assert (forall c, c < columns s ->
            exists x, nth_error top c = Some x /\
                      nth_error (Np.eq_scalar 0 top) c = Some (x =? 0)%Z) as Hnth.
  { intros c Hc. destruct (nth_error top c) as [x|] eqn:E.
    - exists x. split; auto. unfold Np.eq_scalar.
      rewrite nth_error_map, E. reflexivity.
    - apply nth_error_None in E. lia. }
  split; [|split; [|split]].
  - unfold action_masks. cbv [bind gets index ret].
    rewrite (getitem_top _ _ _ Hwf).
    destruct (Nat.eqb_spec (rows s) 0); [lia|]. now rewrite Etop.
  - unfold Np.eq_scalar. now rewrite length_map.
  - intros c Hc. destruct (Hnth c Hc) as (x & Ex & ->).
    unfold cell. rewrite Etop, Ex. split.
    + intros [= H]. apply Z.eqb_eq in H. now subst x.
    + intros [= ->]. reflexivity.
  - intros Hfull c Hc. destruct (Hnth c Hc) as (x & Ex & ->).
    f_equal. unfold board_full in Hfull. rewrite forallb_forall in Hfull.
    specialize (Hfull top (nth_error_In _ _ Etop)).
    rewrite forallb_forall in Hfull.
    specialize (Hfull x (nth_error_In _ _ Ex)).
    unfold occupied in Hfull. now apply negb_true_iff in Hfull.
Qed.

Lemma action_masks_top_row_witness :
  exists mask,
    action_masks won_game = (Ok mask, won_game) /\
    length mask = 7 /\
    (forall c, c < 7 ->
       (nth_error mask c = Some true <-> cell (_board won_game) 5 c = Some 0%Z)) /\
    (board_full (_board won_game) = true ->
     forall c, c < 7 -> nth_error mask c = Some false).
Proof.
  apply (action_masks_top_row Z won_game).
  - split; [reflexivity | repeat constructor].
  - simpl. lia.
Defined.

(** ** The guarded move *)

Lemma apply_move_eq (policy : Type) (e : exn) (column piece : Z) (s : env policy) :
  apply_move e column piece s =
  match illegal column s with
  | (Err e', _) => (Err e', s)
  | (Ok true, _) => (Err e, s)
  | (Ok false, _) => _move column piece s
  end.
Proof.
  unfold apply_move. cbv [bind].
  pose proof (illegal_state _ column s) as Hs.
  destruct (illegal column s) as [[[|]|e'] s0]; simpl in Hs; subst s0; reflexivity.
Qed.

(** [step] starts with the guarded move of the agent's piece, and
    [_opponent_move] ends with the guarded move of the opponent's. *)
Lemma step_apply_move (policy : Type)
  (opponent : policy -> ObsType -> list bool -> Z * policy)
  (action : Z) (s : env policy) :
  step opponent action s =
  match apply_move InvalidAction action 1 s with
  | (Err e, s1) => (Err e, s1)
  | (Ok row, s1) =>
      match _is_win row (Z.to_nat action) s1 with
      | (Err e, _) => (Err e, s1)
      | (Ok true, _) => (Ok (StepResult (planes 1 (_board s1)) 1 true false), s1)
      | (Ok false, _) =>
          if is_full s1
          then (Ok (StepResult (planes 1 (_board s1)) 0 true false), s1)
          else opponent_turn opponent s1
      end
  end.
Proof.
  rewrite step_eq, apply_move_eq.
  destruct (illegal action s) as [[[|]|e'] s0]; reflexivity.
Qed.

Lemma opponent_move_apply_move (policy : Type)
  (opponent : policy -> ObsType -> list bool -> Z * policy) (s : env policy) :
  wf s -> 0 < rows s ->
  _opponent_move opponent s =
  let c := fst (opponent_choice opponent s) in
  match apply_move (InvalidOpponentMove c) c (-1)
                   (set_opponent s (snd (opponent_choice opponent s))) with
  | (Ok r, s2) => (Ok (r, c), s2)
  | (Err e, s2) => (Err e, s2)
  end.
Proof.
  intros Hwf Hrows. rewrite opponent_move_eq by auto. cbv zeta.
  rewrite apply_move_eq.
  set (c := fst (opponent_choice opponent s)).
  set (s1 := set_opponent s (snd (opponent_choice opponent s))).
  destruct (contains (columns s) c) eqn:Hc.
  - rewrite (illegal_in_range _ c s1) by auto.
    change (_board s1) with (_board s). change (rows s1) with (rows s).
    cbn [negb orb]. destruct (negb _); reflexivity.
  - rewrite (illegal_out_of_range _ c s1) by auto. reflexivity.
Qed.

Lemma not_empty_at (b : list (list Z)) (c r : nat) :
  is_empty_at b c r = false -> cell b r c <> Some 0%Z.
Proof. unfold is_empty_at. intros H E. rewrite E in H. discriminate. Qed.

Lemma apply_move_effect (policy : Type) (e : exn) (s : env policy)
  (column piece : Z) :
  wf s -> 0 < rows s ->
  ((~ (0 <= column < Z.of_nat (columns s))%Z
    \/ column_full (_board s) (Z.to_nat column)) ->
   apply_move e column piece s = (Err e, s)) /\
  ((0 <= column < Z.of_nat (columns s))%Z ->
   cell (_board s) (rows s - 1) (Z.to_nat column) = Some 0%Z ->
   exists row s', apply_move e column piece s = (Ok row, s')) /\
  (forall row s',
     apply_move e column piece s = (Ok row, s') ->
     (0 <= column < Z.of_nat (columns s))%Z /\
     row < rows s /\
     cell (_board s) row (Z.to_nat column) = Some 0%Z /\
     (forall r, r < row -> cell (_board s) r (Z.to_nat column) <> Some 0%Z) /\
     cell (_board s') row (Z.to_nat column) = Some piece /\
     (forall r c, (r, c) <> (row, Z.to_nat column) ->
        cell (_board s') r c = cell (_board s) r c) /\
     _num_moves s' = S (_num_moves s) /\
     wf s' /\
     rows s' = rows s /\ columns s' = columns s /\ win_length s' = win_length s).
Proof.
  intros Hwf Hrows. rewrite apply_move_eq. split; [|split].
  - intros Hbad. destruct (contains (columns s) column) eqn:Hc.
    + rewrite illegal_in_range by auto.
      apply contains_range in Hc. destruct Hbad as [Hbad|Hfull]; [lia|].
      now rewrite (column_full_top _ _ _ _ Hwf Hfull).
    + now rewrite illegal_out_of_range.
  - intros Hc Htop. rewrite illegal_in_range by (auto; now apply contains_range).
    unfold is_empty_at at 1. rewrite Htop. cbn [Z.eqb negb].
    destruct (guarded_move _ column piece s Hwf) as (r & _ & ->); eauto.
    rewrite illegal_in_range by (auto; now apply contains_range).
    unfold is_empty_at. now rewrite Htop.
  - intros row s' H.
    destruct (illegal column s) as [[[|]|e'] s0] eqn:Hg; try discriminate.
    pose proof (illegal_state _ column s) as Hs. rewrite Hg in Hs.
    simpl in Hs. subst s0.
    destruct (illegal_false _ _ _ Hwf Hg) as (Hc & _ & _).
    destruct (move_result _ _ _ _ _ _ Hwf Hc H) as (Hlow & ->).
    apply lowest_empty_some in Hlow. destruct Hlow as (Hr & Hcell & Hlow).
    assert (Z.to_nat column < columns s) as Hc' by lia.
    repeat split; auto; try lia.
    + intros r Hr'. apply not_empty_at, Hlow, Hr'.
    + apply (setitem2_cell_same _ _ _ _ _ _ Hwf Hr Hc').
    + intros r c Hne. apply (setitem2_cell_other _ _ _ _ _ _ Hwf Hr Hc' _ _ Hne).
    + apply (setitem2_wf _ _ _ _ _ _ Hwf Hr Hc').
    + apply (setitem2_wf _ _ _ _ _ _ Hwf Hr Hc').
Qed.

(** C6. The guarded move on a board with at least one row: a column out of
    [[0, columns)] or full makes it fail with the caller's illegal-move
    error and leaves the state as it was; when the column is in range and
    its top cell is empty it succeeds; and whenever it succeeds the piece
    has been put in the lowest empty row of the column, no other cell has
    changed, [_num_moves] has grown by exactly one and the returned value
    is the landing row. *)
Theorem apply_move_spec (policy : Type) (e : exn) (s : env policy)
  (column piece : Z) :
  wf s -> 0 < rows s ->
  ((~ (0 <= column < Z.of_nat (columns s))%Z
    \/ column_full (_board s) (Z.to_nat column)) ->
   apply_move e column piece s = (Err e, s)) /\
  ((0 <= column < Z.of_nat (columns s))%Z ->
   cell (_board s) (rows s - 1) (Z.to_nat column) = Some 0%Z ->
   exists row s', apply_move e column piece s = (Ok row, s')) /\
  (forall row s',
     apply_move e column piece s = (Ok row, s') ->
     (0 <= column < Z.of_nat (columns s))%Z /\
     row < rows s /\
     cell (_board s) row (Z.to_nat column) = Some 0%Z /\
     (forall r, r < row -> cell (_board s) r (Z.to_nat column) <> Some 0%Z) /\
     cell (_board s') row (Z.to_nat column) = Some piece /\
     (forall r c, (r, c) <> (row, Z.to_nat column) ->
        cell (_board s') r c = cell (_board s) r c) /\
     _num_moves s' = S (_num_moves s) /\
     wf s' /\
     rows s' = rows s /\ columns s' = columns s /\ win_length s' = win_length s).
Proof. apply apply_move_effect. Qed.

Lemma apply_move_spec_witness :
  exists row s',
    apply_move InvalidAction 3 1 game0 = (Ok row, s') /\
    row = 0 /\ cell (_board s') 0 3 = Some 1%Z /\ _num_moves s' = 1.
Proof.
  assert (wf game0) as Hwf by (split; [reflexivity | repeat constructor]).
  assert (0 < rows game0) as Hrows by (simpl; lia).
  destruct (apply_move_spec Z InvalidAction game0 3 1 Hwf Hrows) as (_ & Hok & Hres).
  destruct Hok as (row & s' & H); [simpl; lia | reflexivity |].
  exists row, s'.
  destruct (Hres row s' H) as (_ & _ & _ & _ & Hcell & _ & Hn & _).
  assert (row = 0) as -> by (vm_compute in H; congruence).
  repeat split; auto.
Defined.

(** ** Which exceptions can come out *)

Section Exceptions.

Variable policy : Type.
Variable opponent : policy -> ObsType -> list bool -> Z * policy.

Implicit Types s : env policy.

Lemma illegal_err (column : Z) s (e : exn) s' :
  illegal column s = (Err e, s') -> e = IndexError.
Proof.
  unfold illegal. cbv [bind gets index ret raise].
  destruct (negb _); [discriminate|].
  destruct (Np.getitem2 _ _ _); [discriminate|]. now intros [= <- _].
Qed.

Lemma is_win_err (row col : nat) s (e : exn) s' :
  _is_win row col s = (Err e, s') -> e = IndexError.
Proof.
  unfold _is_win. cbv [bind gets index ret raise].
  destruct (col <? columns s); [|now intros [= <- _]]. cbv beta iota.
  destruct (Z.geb _ _); [discriminate|].
  destruct (nth_error (_board s) row); [|now intros [= <- _]]. cbv beta iota.
  destruct (Z.geb _ _); [discriminate|].
  destruct (Z.geb _ _); discriminate.
Qed.

Lemma guarded_move_wf (column piece : Z) s (row : nat) s' :
  wf s -> illegal column s = (Ok false, s) ->
  _move column piece s = (Ok row, s') ->
  wf s' /\ row < rows s' /\ (0 <= column < Z.of_nat (columns s'))%Z.
Proof.
  intros Hwf Hg Hm.
  destruct (illegal_false _ _ _ Hwf Hg) as (Hc & Hrows & _).
  destruct (apply_move_effect policy InvalidAction s column piece Hwf Hrows)
    as (_ & _ & Hres).
  rewrite apply_move_eq, Hg in Hres.
  destruct (Hres row s' Hm) as (_ & Hr & _ & _ & _ & _ & _ & Hwf' & Hrs & Hcs & _).
  rewrite Hrs, Hcs. auto.
Qed.

Lemma opponent_move_result s (r : result (nat * Z)) s' :
  wf s -> _opponent_move opponent s = (r, s') ->
  match r with
  | Ok (orow, ocol) =>
      wf s' /\ orow < rows s' /\ (0 <= ocol < Z.of_nat (columns s'))%Z
  | Err e => e = IndexError \/ e = InvalidOpponentMove (fst (opponent_choice opponent s))
  end.
Proof.
  intros Hwf H.
  destruct (Nat.eq_dec (rows s) 0) as [H0|H0].
  { rewrite opponent_move_no_rows in H by auto. injection H as <- _. auto. }
  rewrite opponent_move_eq in H by (auto; lia). cbv zeta in H.
  set (c := fst (opponent_choice opponent s)) in *.
  set (s1 := set_opponent s (snd (opponent_choice opponent s))) in *.
  destruct (contains (columns s) c) eqn:Hc; cbn [negb orb] in H.
  2:{ injection H as <- _. auto. }
  destruct (is_empty_at (_board s) (Z.to_nat c) (rows s - 1)) eqn:Etop;
    cbn [negb] in H.
  2:{ injection H as <- _. auto. }
  assert (illegal c s1 = (Ok false, s1)) as Hg.
  { assert (0 < rows s1) as Hrows1 by (change (0 < rows s); lia).
    rewrite (illegal_in_range _ c s1 Hwf Hrows1 Hc).
    change (_board s1) with (_board s). change (rows s1) with (rows s).
    now rewrite Etop. }
  destruct (guarded_move _ c (-1) s1 Hwf Hg) as (r0 & _ & Hm).
  rewrite Hm in H. injection H as <- <-.
  apply (guarded_move_wf c (-1) s1 r0 _ Hwf Hg Hm).
Qed.

Lemma opponent_turn_no_invalid_move s :
  wf s -> fst (opponent_turn opponent s) <> Err InvalidMove.
Proof.
  intros Hwf. rewrite opponent_turn_eq.
  destruct (_opponent_move opponent s) as [[[orow ocol]|e] s2] eqn:Hom.
  - destruct (_is_win orow (Z.to_nat ocol) s2) as [[[|]|e] s3] eqn:Hw;
      try discriminate.
    + destruct (is_full s2); discriminate.
    + apply is_win_err in Hw. subst e. discriminate.
  - pose proof (opponent_move_result s _ _ Hwf Hom) as [-> | ->]; discriminate.
Qed.

Lemma step_no_invalid_move (action : Z) s :
  wf s -> fst (step opponent action s) <> Err InvalidMove.
Proof.
  intros Hwf. rewrite step_eq.
  destruct (illegal action s) as [[[|]|e] s0] eqn:Hg; try discriminate.
  2:{ apply illegal_err in Hg. subst e. discriminate. }
  pose proof (illegal_state _ action s) as Hs. rewrite Hg in Hs.
  simpl in Hs. subst s0.
  destruct (guarded_move _ action 1 s Hwf Hg) as (row & _ & Hm). rewrite Hm.
  destruct (guarded_move_wf action 1 s row _ Hwf Hg Hm) as (Hwf1 & _).
  destruct (_is_win _ _ _) as [[[|]|e] s3] eqn:Hw; try discriminate.
  - destruct (is_full _); [discriminate|].
    now apply opponent_turn_no_invalid_move.
  - apply is_win_err in Hw. subst e. discriminate.
Qed.

Lemma reset_no_invalid_move (fresh : policy) (coin : bool) s :
  fst (reset opponent fresh coin s) <> Err InvalidMove.
Proof.
  rewrite reset_eq. cbv zeta. destruct coin; [|discriminate].
  destruct (_opponent_move opponent _) as [[om|e] s1] eqn:Hom; [discriminate|].
  apply opponent_move_result in Hom; [|apply wf_board_zeros].
  destruct Hom as [-> | ->]; discriminate.
Qed.

End Exceptions.

(** C10. When [_move] is called on a column whose cells are all non-empty
    it raises its "invalid move" error only after [_num_moves] has been
    incremented: the grid is the same, the counter is one more, so a
    counter that agreed with the number of occupied cells now exceeds it
    by one.  Neither [step] nor [reset] (through [_opponent_move]) can
    end in that error: both test the top cell of the column first. *)
Theorem move_full_column_counts_first (policy : Type)
  (opponent : policy -> ObsType -> list bool -> Z * policy)
  (s : env policy) (column piece : Z) :
  wf s ->
  (0 <= column < Z.of_nat (columns s))%Z ->
  column_full (_board s) (Z.to_nat column) ->
  (exists s',
     _move column piece s = (Err InvalidMove, s') /\
     _board s' = _board s /\
     _num_moves s' = S (_num_moves s) /\
     (count_occupied (_board s) = _num_moves s ->
      _num_moves s' = S (count_occupied (_board s')))) /\
  (forall action, fst (step opponent action s) <> Err InvalidMove) /\
  (forall fresh coin, fst (reset opponent fresh coin s) <> Err InvalidMove).
Proof.
  intros Hwf Hc Hfull. split; [|split].
  - exists (set_num_moves s (S (_num_moves s))).
    rewrite move_eq by auto.
    rewrite (column_full_none _ _ _ _ Hwf Hfull).
    repeat split. simpl. intros ->. reflexivity.
  - intros action. now apply step_no_invalid_move.
  - intros fresh coin. apply reset_no_invalid_move.
Qed.

Lemma move_full_column_counts_first_witness :
  (exists s',
     _move 3 1 full_column_game = (Err InvalidMove, s') /\
     _board s' = _board full_column_game /\
     _num_moves s' = S (_num_moves full_column_game) /\
     (count_occupied (_board full_column_game) = _num_moves full_column_game ->
      _num_moves s' = S (count_occupied (_board s')))) /\
  (forall action,
     fst (step fixed_opponent action full_column_game) <> Err InvalidMove) /\
  (forall fresh coin,
     fst (reset fixed_opponent fresh coin full_column_game) <> Err InvalidMove).
Proof.
  apply (move_full_column_counts_first Z fixed_opponent full_column_game 3 1).
  - split; [reflexivity | repeat constructor].
  - simpl. lia.
  - intros r Hr. change (length (_board full_column_game)) with 6 in Hr.
    assert (r = 0 \/ r = 1 \/ r = 2 \/ r = 3 \/ r = 4 \/ r = 5)
      as [-> | [-> | [-> | [-> | [-> | ->]]]]] by lia; discriminate.
Defined.

(** ** Counting through a sequence of moves *)

Lemma apply_move_counts (policy : Type) (e : exn) (column piece : Z)
  (s : env policy) (row : nat) (s' : env policy) :
  wf s -> piece <> 0%Z ->
  apply_move e column piece s = (Ok row, s') ->
  wf s' /\ _num_moves s' = S (_num_moves s) /\
  count_occupied (_board s') = S (count_occupied (_board s)).
Proof.
  intros Hwf Hp H. rewrite apply_move_eq in H.
  destruct (illegal column s) as [[[|]|e'] s0] eqn:Hg; try discriminate.
  pose proof (illegal_state _ column s) as Hs. rewrite Hg in Hs.
  simpl in Hs. subst s0.
  destruct (illegal_false _ _ _ Hwf Hg) as (Hc & _ & _).
  destruct (guarded_move_wf _ column piece s row s' Hwf Hg H) as (Hwf' & _).
  destruct (move_result _ _ _ _ _ _ Hwf Hc H) as (Hlow & ->).
  apply lowest_empty_some in Hlow. destruct Hlow as (Hr & Hcell & _).
  repeat split; try apply Hwf'. simpl.
  pose proof (setitem2_count occupied _ _ _ _ _ piece _ Hwf Hcell) as Hcount.
  assert (occupied piece = true) as Ho
    by (unfold occupied; now destruct (Z.eqb_spec piece 0)).
  rewrite Ho in Hcount. change (occupied 0) with false in Hcount.
  cbv iota in Hcount. unfold count_occupied. lia.
Qed.

Lemma apply_moves_counts (policy : Type) (e : exn) (moves : list (Z * Z)) :
  Forall (fun m => snd m <> 0%Z) moves ->
  forall (s s' : env policy),
    wf s -> apply_moves e moves s = (Ok tt, s') ->
    _num_moves s' = _num_moves s + length moves /\
    count_occupied (_board s') = count_occupied (_board s) + length moves.
Proof.
  induction 1 as [|[column piece] moves Hp _ IH]; intros s s' Hwf H.
  - injection H as <-. simpl. lia.
  - cbn [apply_moves] in H. cbv [bind] in H.
    destruct (apply_move e column piece s) as [[row|e'] s1] eqn:Hm;
      [|discriminate].
    destruct (apply_move_counts _ _ _ _ _ _ _ Hwf Hp Hm) as (Hwf1 & Hn1 & Hc1).
    destruct (IH s1 s' Hwf1 H) as (Hn & Hc). simpl. lia.
Qed.

(** C5. In every state reachable from [reset] by [step] calls, the number
    of non-empty cells equals [_num_moves]; the board is full exactly when
    [_num_moves] is [rows * columns]; and [k] more successful moves raise
    both the counter and the number of non-empty cells by [k]. *)
Theorem move_count_is_occupied_cells (policy : Type)
  (opponent : policy -> ObsType -> list bool -> Z * policy) (s : env policy) :
  reachable opponent s ->
  count_occupied (_board s) = _num_moves s /\
  (board_full (_board s) = true <-> _num_moves s = rows s * columns s) /\
  (forall e moves s',
     Forall (fun m => snd m <> 0%Z) moves ->
     apply_moves e moves s = (Ok tt, s') ->
     _num_moves s' = _num_moves s + length moves /\
     count_occupied (_board s') = _num_moves s').
Proof.
  intros Hreach.
  destruct (reachable_invariant _ _ _ Hreach) as (Hwf & _ & Hn & _).
  split; [exact Hn|]. split.
  - rewrite <- Hn. split.
    + now apply count_cells_full.
    + now apply count_cells_all.
  - intros e moves s' Hp H.
    destruct (apply_moves_counts _ e moves Hp s s' Hwf H) as (H1 & H2). lia.
Qed.

Lemma move_count_is_occupied_cells_witness :
  count_occupied (_board won_game) = _num_moves won_game /\
  (board_full (_board won_game) = true <->
   _num_moves won_game = rows won_game * columns won_game) /\
  (forall e moves s',
     Forall (fun m => snd m <> 0%Z) moves ->
     apply_moves e moves won_game = (Ok tt, s') ->
     _num_moves s' = _num_moves won_game + length moves /\
     count_occupied (_board s') = _num_moves s').
Proof.
  apply (move_count_is_occupied_cells Z fixed_opponent won_game).
  exact won_game_reachable.
Defined.

(** ** Observation planes *)

Lemma plane_cell_eq_scalar2 (v : Z) (b : list (list Z)) (r c : nat) :
  plane_cell (Np.eq_scalar2 v b) r c =
  option_map (fun x => (x =? v)%Z) (cell b r c).
Proof.
  unfold plane_cell, cell, Np.eq_scalar2, Np.eq_scalar.
  rewrite nth_error_map.
  destruct (nth_error b r) as [line|]; simpl; auto.
  now rewrite nth_error_map.
Qed.

Lemma count_true_eq_scalar2 (v : Z) (b : list (list Z)) :
  count_true (Np.eq_scalar2 v b) = count_cells (fun x => (x =? v)%Z) b.
Proof.
  unfold count_true, count_cells, Np.eq_scalar2. rewrite map_map.
  f_equal. apply map_ext. intros line. unfold count_row, Np.eq_scalar.
  induction line as [|x t IH]; simpl; auto.
  destruct (x =? v)%Z; simpl; now rewrite IH.
Qed.

Lemma count_row_pieces (line : list Z) :
  Forall (fun x => is_piece x = true) line ->
  count_row (fun x => (x =? 1)%Z) line + count_row (fun x => (x =? -1)%Z) line =
  count_row occupied line.
Proof.
  unfold count_row. induction 1 as [|x t Hx _ IH]; simpl; auto.
  unfold is_piece in Hx. unfold occupied at 1.
  destruct (Z.eqb_spec x 0), (Z.eqb_spec x 1), (Z.eqb_spec x (-1));
    simpl in *; try discriminate; lia.
Qed.

Lemma count_cells_pieces (b : list (list Z)) :
  pieces_only b ->
  count_cells (fun x => (x =? 1)%Z) b + count_cells (fun x => (x =? -1)%Z) b =
  count_occupied b.
Proof.
  unfold count_occupied, count_cells.
  induction 1 as [|line b Hl _ IH]; simpl; auto.
  pose proof (count_row_pieces line Hl). lia.
Qed.

(** C8. In every reachable state and for either viewing player (1 or -1),
    [_get_observation] returns two planes and the state it was called in:
    no cell is set in both planes, and the number of cells set in the two
    planes together is [_num_moves]. *)
Theorem observation_planes_disjoint_cover (policy : Type)
  (opponent : policy -> ObsType -> list bool -> Z * policy)
  (s : env policy) (player : Z) :
  reachable opponent s ->
  player = 1%Z \/ player = (-1)%Z ->
  exists plane_self plane_other,
    _get_observation player s = (Ok [plane_self; plane_other], s) /\
    (forall r c, ~ (plane_cell plane_self r c = Some true /\
                    plane_cell plane_other r c = Some true)) /\
    count_true plane_self + count_true plane_other = _num_moves s.
Proof.
  intros Hreach Hplayer.
  destruct (reachable_invariant _ _ _ Hreach) as (_ & Hp & Hn & _).
  exists (Np.eq_scalar2 player (_board s)), (Np.eq_scalar2 (- player) (_board s)).
  split; [reflexivity|]. split.
  - intros r c [H1 H2]. rewrite plane_cell_eq_scalar2 in H1, H2.
    destruct (cell (_board s) r c) as [x|]; simpl in *; [|discriminate].
    injection H1 as H1. injection H2 as H2.
    apply Z.eqb_eq in H1, H2. lia.
  - rewrite !count_true_eq_scalar2, <- Hn, <- (count_cells_pieces _ Hp).
    destruct Hplayer as [-> | ->]; simpl; lia.
Qed.

Lemma observation_planes_disjoint_cover_witness :
  exists plane_self plane_other,
    _get_observation (-1) won_game = (Ok [plane_self; plane_other], won_game) /\
    (forall r c, ~ (plane_cell plane_self r c = Some true /\
                    plane_cell plane_other r c = Some true)) /\
    count_true plane_self + count_true plane_other = _num_moves won_game.
Proof.
  apply (observation_planes_disjoint_cover Z fixed_opponent won_game (-1)).
  - exact won_game_reachable.
  - right. reflexivity.
Defined.

(** ** The cell a move lands in *)

Section Landing.

Variable policy : Type.
Variable opponent : policy -> ObsType -> list bool -> Z * policy.

Implicit Types s : env policy.

Lemma is_full_board_full s :
  invariant s -> is_full s = board_full (_board s).
Proof.
  intros (Hwf & _ & Hn & _). unfold is_full. rewrite <- Hn.
  destruct (Nat.eqb_spec (count_occupied (_board s)) (rows s * columns s)) as [E|E].
  - symmetry. now apply (count_cells_all _ _ _ Hwf).
  - destruct (board_full (_board s)) eqn:Hf; auto.
    exfalso. apply E. now apply count_cells_full.
Qed.

Lemma move_landing (column piece : Z) s (row : nat) s1 :
  invariant s -> illegal column s = (Ok false, s) -> piece <> 0%Z ->
  _move column piece s = (Ok row, s1) ->
  cell (_board s1) row (Z.to_nat column) = Some piece /\
  (forall r, row < r -> r < rows s1 ->
     cell (_board s1) r (Z.to_nat column) = Some 0%Z).
Proof.
  intros (Hwf & _ & _ & Hg) Hguard Hp Hm.
  destruct (illegal_false _ _ _ Hwf Hguard) as (Hc & _ & _).
  destruct (move_result _ _ _ _ _ _ Hwf Hc Hm) as (Hlow & ->).
  apply lowest_empty_some in Hlow. destruct Hlow as (Hr & Hcell & _).
  assert (Z.to_nat column < columns s) as Hc' by lia.
  simpl. split.
  - apply (setitem2_cell_same _ _ _ _ _ _ Hwf Hr Hc').
  - intros r Hlt Hr'.
    rewrite (setitem2_cell_other _ _ _ _ _ _ Hwf Hr Hc') by (intros [= -> ]; lia).
    destruct (cell_in_bounds _ _ (_board s) r (Z.to_nat column) Hwf Hr' Hc')
      as [x Hx].
    rewrite Hx. f_equal. apply (Hg row r (Z.to_nat column) x Hlt Hcell Hx).
Qed.

(** After a guarded move the win check is the rescan at the landing cell. *)
Lemma move_is_win (column piece : Z) s (row : nat) s1 :
  invariant s -> illegal column s = (Ok false, s) -> piece <> 0%Z ->
  _move column piece s = (Ok row, s1) ->
  _is_win row (Z.to_nat column) s1 =
  (Ok (rescan (rows s1) (columns s1) (_board s1) (win_length s1)
              row (Z.to_nat column)), s1).
Proof.
  intros Hinv Hguard Hp Hm. pose proof Hinv as (Hwf & _).
  destruct (move_landing column piece s row s1 Hinv Hguard Hp Hm) as (Hcell & Habove).
  destruct (guarded_move_wf _ column piece s row s1 Hwf Hguard Hm) as (Hwf1 & _).
  apply (is_win_rescan policy s1 row (Z.to_nat column) piece Hwf1 Hcell Hp Habove).
Qed.

Lemma opponent_move_landing s (orow : nat) (ocol : Z) s2 :
  invariant s -> _opponent_move opponent s = (Ok (orow, ocol), s2) ->
  invariant s2 /\
  _is_win orow (Z.to_nat ocol) s2 =
  (Ok (rescan (rows s2) (columns s2) (_board s2) (win_length s2)
              orow (Z.to_nat ocol)), s2).
Proof.
  intros Hinv H.
  split; [eapply opponent_move_invariant; eauto|].
  pose proof Hinv as (Hwf & _).
  destruct (Nat.eq_dec (rows s) 0) as [H0|H0].
  { rewrite opponent_move_no_rows in H by auto. discriminate. }
  rewrite opponent_move_eq in H by (auto; lia). cbv zeta in H.
  set (c := fst (opponent_choice opponent s)) in *.
  set (s1 := set_opponent s (snd (opponent_choice opponent s))) in *.
  destruct (contains (columns s) c) eqn:Hc; cbn [negb orb] in H; [|discriminate].
  destruct (is_empty_at (_board s) (Z.to_nat c) (rows s - 1)) eqn:Etop;
    cbn [negb] in H; [|discriminate].
  assert (illegal c s1 = (Ok false, s1)) as Hg.
  { assert (0 < rows s1) as Hrows1 by (change (0 < rows s); lia).
    rewrite (illegal_in_range _ c s1 Hwf Hrows1 Hc).
    change (_board s1) with (_board s). change (rows s1) with (rows s).
    now rewrite Etop. }
  destruct (_move c (-1) s1) as [[r0|e] s3] eqn:Hm; [|discriminate].
  injection H as <- <- <-.
  apply (move_is_win c (-1) s1 r0 s3 Hinv Hg ltac:(discriminate) Hm).
Qed.

Lemma step_truncated (action : Z) s (res : step_result) s' :
  step opponent action s = (Ok res, s') -> truncated res = false.
Proof.
  rewrite step_eq.
  destruct (illegal action s) as [[[|]|e] s0]; try discriminate.
  destruct (_move action 1 s) as [[row|e] s1]; [|discriminate].
  destruct (_is_win _ _ _) as [[[|]|e] s3]; try discriminate.
  - now intros [= <- _].
  - destruct (is_full s1); [now intros [= <- _]|].
    rewrite opponent_turn_eq.
    destruct (_opponent_move opponent s1) as [[[orow ocol]|e] s2]; [|discriminate].
    destruct (_is_win _ _ _) as [[[|]|e] s4]; try discriminate.
    + now intros [= <- _].
    + destruct (is_full s2); now intros [= <- _].
Qed.

Lemma legal_action_guard (action : Z) s :
  invariant s ->
  (0 <= action < Z.of_nat (columns s))%Z ->
  ~ column_full (_board s) (Z.to_nat action) ->
  illegal action s = (Ok false, s).
Proof.
  intros (Hwf & _ & _ & Hg) Hc Hnf.
  assert (0 < rows s) as Hrows.
  { destruct (Nat.eq_dec (rows s) 0) as [H0|]; [|lia].
    exfalso. apply Hnf. intros r Hr. destruct Hwf as [Hlen _]. lia. }
  rewrite illegal_in_range by (auto; now apply contains_range).
  destruct (is_empty_at _ _ _) eqn:E; [reflexivity|].
  exfalso. apply Hnf.
  assert (Z.to_nat action < columns s) as Hc' by lia.
  apply (gravity_column_full _ _ _ _ Hwf Hg Hrows Hc'). exact E.
Qed.

(** What an accepted opponent move has done: the column is the callable's
    answer, the piece -1 lies in the lowest empty cell of that column, no
    other cell has changed and the move is counted. *)
Lemma opponent_move_effect s (orow : nat) (ocol : Z) s2 :
  wf s -> _opponent_move opponent s = (Ok (orow, ocol), s2) ->
  ocol = fst (opponent_choice opponent s) /\
  (0 <= ocol < Z.of_nat (columns s))%Z /\
  orow < rows s /\
  cell (_board s) orow (Z.to_nat ocol) = Some 0%Z /\
  (forall r, r < orow -> cell (_board s) r (Z.to_nat ocol) <> Some 0%Z) /\
  cell (_board s2) orow (Z.to_nat ocol) = Some (-1)%Z /\
  (forall r c, (r, c) <> (orow, Z.to_nat ocol) ->
     cell (_board s2) r c = cell (_board s) r c) /\
  _num_moves s2 = S (_num_moves s).
Proof.
  intros Hwf H.
  destruct (Nat.eq_dec (rows s) 0) as [H0|H0].
  { rewrite opponent_move_no_rows in H by auto. discriminate. }
  assert (0 < rows s) as Hrows by lia.
  rewrite (opponent_move_apply_move policy opponent s Hwf Hrows) in H.
  cbv zeta in H.
  set (c := fst (opponent_choice opponent s)) in *.
  set (s1 := set_opponent s (snd (opponent_choice opponent s))) in *.
  destruct (apply_move (InvalidOpponentMove c) c (-1) s1) as [[r0|e] s3] eqn:Ha;
    [|discriminate].
  injection H as <- <- <-.
  destruct (apply_move_effect policy (InvalidOpponentMove c) s1 c (-1) Hwf Hrows)
    as (_ & _ & Hres).
  destruct (Hres r0 s3 Ha) as (Hc & Hr & Hcell & Hlow & Hnew & Hother & Hn & _).
  split; [reflexivity|]. split; [exact Hc|]. split; [exact Hr|].
  split; [exact Hcell|]. split; [exact Hlow|]. split; [exact Hnew|].
  split; [exact Hother | exact Hn].
Qed.

(** An answer that is in range on a column that is not full is played. *)
Lemma opponent_move_accepted s :
  invariant s ->
  (0 <= fst (opponent_choice opponent s) < Z.of_nat (columns s))%Z ->
  ~ column_full (_board s) (Z.to_nat (fst (opponent_choice opponent s))) ->
  exists orow s2,
    _opponent_move opponent s = (Ok (orow, fst (opponent_choice opponent s)), s2).
Proof.
  intros Hinv Hc Hnf. pose proof Hinv as (Hwf & _).
  set (c := fst (opponent_choice opponent s)) in *.
  set (s1 := set_opponent s (snd (opponent_choice opponent s))).
  assert (invariant s1) as Hinv1 by exact Hinv.
  pose proof Hinv1 as (Hwf1 & _).
  pose proof (legal_action_guard c s1 Hinv1 Hc Hnf) as Hg.
  destruct (illegal_false _ c s1 Hwf1 Hg) as (_ & Hrows & _).
  destruct (guarded_move _ c (-1) s1 Hwf1 Hg) as (r0 & _ & Hm).
  rewrite (opponent_move_apply_move policy opponent s Hwf Hrows). cbv zeta.
  fold c. fold s1. rewrite apply_move_eq, Hg, Hm. eauto.
Qed.

End Landing.

(** C2. In a reachable state, for an agent action that is in range and
    whose column is not full, [_move] puts the agent's piece 1 in the
    lowest empty cell [row] of the column, changes no other cell and counts
    the move.  "The agent's move wins" is: the rescan finds a winning run
    through that cell, which is a run of 1s of length at least [win_length]
    through it.  Then
    - if the agent's move wins, [step] returns reward 1 with
      [terminated = true];
    - otherwise, if the board is full, reward 0 with [terminated = true];
    - otherwise the opponent is asked; an answer in range on a column that
      is not full is accepted, and an accepted move puts the opponent's
      piece -1 in the lowest empty cell of the answered column, changes no
      other cell and is counted; "the opponent's move wins" is a run of -1s
      of length at least [win_length] through that cell.  Then reward -1
      with [terminated = true] if the opponent's move wins; otherwise
      reward 0 with [terminated = true] if the board is full; otherwise
      reward 0 with [terminated = false].
    The state [step] returns in is the one after the last move made, and
    the observation is the agent's view of its grid.  Whatever [step]
    returns, its [truncated] flag is [false]. *)
Theorem step_outcomes (policy : Type)
  (opponent : policy -> ObsType -> list bool -> Z * policy)
  (s : env policy) (action : Z) :
  reachable opponent s ->
  (0 <= action < Z.of_nat (columns s))%Z ->
  ~ column_full (_board s) (Z.to_nat action) ->
  (exists row s1,
     _move action 1 s = (Ok row, s1) /\
     cell (_board s) row (Z.to_nat action) = Some 0%Z /\
     (forall r, r < row -> cell (_board s) r (Z.to_nat action) <> Some 0%Z) /\
     cell (_board s1) row (Z.to_nat action) = Some 1%Z /\
     (forall r c, (r, c) <> (row, Z.to_nat action) ->
        cell (_board s1) r c = cell (_board s) r c) /\
     _num_moves s1 = S (_num_moves s) /\
     let agent_wins :=
       rescan (rows s1) (columns s1) (_board s1) (win_length s1)
              row (Z.to_nat action) in
     (agent_wins = true <->
      run_through (_board s1) 1 (win_length s1) row (Z.to_nat action)) /\
     (agent_wins = true ->
      step opponent action s =
      (Ok (StepResult (planes 1 (_board s1)) 1 true false), s1)) /\
     (agent_wins = false -> board_full (_board s1) = true ->
      step opponent action s =
      (Ok (StepResult (planes 1 (_board s1)) 0 true false), s1)) /\
     (agent_wins = false -> board_full (_board s1) = false ->
      ((0 <= fst (opponent_choice opponent s1) < Z.of_nat (columns s1))%Z ->
       ~ column_full (_board s1) (Z.to_nat (fst (opponent_choice opponent s1))) ->
       exists orow s2,
         _opponent_move opponent s1 =
         (Ok (orow, fst (opponent_choice opponent s1)), s2)) /\
      forall orow ocol s2,
        _opponent_move opponent s1 = (Ok (orow, ocol), s2) ->
        ocol = fst (opponent_choice opponent s1) /\
        cell (_board s1) orow (Z.to_nat ocol) = Some 0%Z /\
        (forall r, r < orow -> cell (_board s1) r (Z.to_nat ocol) <> Some 0%Z) /\
        cell (_board s2) orow (Z.to_nat ocol) = Some (-1)%Z /\
        (forall r c, (r, c) <> (orow, Z.to_nat ocol) ->
           cell (_board s2) r c = cell (_board s1) r c) /\
        _num_moves s2 = S (_num_moves s1) /\
        let opponent_wins :=
          rescan (rows s2) (columns s2) (_board s2) (win_length s2)
                 orow (Z.to_nat ocol) in
        (opponent_wins = true <->
         run_through (_board s2) (-1) (win_length s2) orow (Z.to_nat ocol)) /\
        (opponent_wins = true ->
         step opponent action s =
         (Ok (StepResult (planes 1 (_board s2)) (-1) true false), s2)) /\
        (opponent_wins = false -> board_full (_board s2) = true ->
         step opponent action s =
         (Ok (StepResult (planes 1 (_board s2)) 0 true false), s2)) /\
        (opponent_wins = false -> board_full (_board s2) = false ->
         step opponent action s =
         (Ok (StepResult (planes 1 (_board s2)) 0 false false), s2)))) /\
  (forall res s', step opponent action s = (Ok res, s') -> truncated res = false).
Proof.
  intros Hreach Hc Hnf.
  pose proof (reachable_invariant _ _ _ Hreach) as Hinv.
  pose proof Hinv as (Hwf & _).
  pose proof (legal_action_guard _ action s Hinv Hc Hnf) as Hg.
  split; [|intros res s'; apply step_truncated].
  destruct (illegal_false _ _ _ Hwf Hg) as (_ & Hrows & _).
  destruct (guarded_move _ action 1 s Hwf Hg) as (row & _ & Hm).
  destruct (apply_move_effect policy InvalidAction s action 1 Hwf Hrows)
    as (_ & _ & Hres).
  rewrite apply_move_eq, Hg in Hres.
  destruct (Hres row _ Hm) as (_ & _ & Hold & Hlow & Hnew & Hother & Hn & _).
  eexists row, _. split; [exact Hm|].
  set (s1 := set_board _ _) in *.
  pose proof (move_is_win _ action 1 s row s1 Hinv Hg ltac:(discriminate) Hm) as Hw.
  pose proof (move_invariant _ action 1 s row s1 Hinv Hc eq_refl
                ltac:(discriminate) Hm) as Hinv1.
  pose proof Hinv1 as (Hwf1 & _).
  split; [exact Hold|]. split; [exact Hlow|]. split; [exact Hnew|].
  split; [exact Hother|]. split; [exact Hn|].
  cbv zeta.
  split; [apply (rescan_run_through _ _ _ _ _ _ _ Hwf1 Hnew)|].
  rewrite step_eq, Hg, Hm, Hw, (is_full_board_full _ s1 Hinv1).
  split; [|split].
  - intros ->. reflexivity.
  - intros -> ->. reflexivity.
  - intros -> ->. split; [apply (opponent_move_accepted _ opponent s1 Hinv1)|].
    intros orow ocol s2 Hom.
    destruct (opponent_move_landing _ opponent s1 orow ocol s2 Hinv1 Hom)
      as (Hinv2 & Hw2).
    pose proof Hinv2 as (Hwf2 & _).
    destruct (opponent_move_effect _ opponent s1 orow ocol s2 Hwf1 Hom)
      as (Hcol & _ & _ & Hold2 & Hlow2 & Hnew2 & Hother2 & Hn2).
    split; [exact Hcol|]. split; [exact Hold2|]. split; [exact Hlow2|].
    split; [exact Hnew2|]. split; [exact Hother2|]. split; [exact Hn2|].
    split; [apply (rescan_run_through _ _ _ _ _ _ _ Hwf2 Hnew2)|].
    rewrite opponent_turn_eq, Hom, Hw2, (is_full_board_full _ s2 Hinv2).
    split; [|split].
    + intros ->. reflexivity.
    + intros -> ->. reflexivity.
    + intros -> ->. reflexivity.
Qed.

Lemma step_outcomes_witness :
  step fixed_opponent 3 three_game =
  (Ok (StepResult (planes 1 (_board won_game)) 1 true false), won_game) /\
  cell (_board won_game) 3 3 = Some 1%Z /\
  _num_moves won_game = S (_num_moves three_game) /\
  run_through (_board won_game) 1 (win_length won_game) 3 3 /\
  (forall res s',
     step fixed_opponent 3 three_game = (Ok res, s') -> truncated res = false).
Proof.
  assert (~ column_full (_board three_game) (Z.to_nat 3)) as Hnf.
  { intros Hfull. apply (Hfull 5); [simpl; lia | reflexivity]. }
  destruct (step_outcomes Z fixed_opponent three_game 3 three_game_reachable
              ltac:(simpl; lia) Hnf)
    as [(row & s1 & Hm & _ & _ & Hnew & _ & Hn & Hrun & Hwin & _) Htr].
  vm_compute in Hm. injection Hm as <- <-.
  assert (rescan (rows won_game) (columns won_game) (_board won_game)
                 (win_length won_game) 3 3 = true) as Hr
    by (vm_compute; reflexivity).
  split; [apply Hwin; exact Hr|]. split; [exact Hnew|]. split; [exact Hn|].
  split; [apply Hrun; exact Hr | exact Htr].
Defined.

(** ** A refused opponent move *)

Lemma opponent_move_refused (policy : Type)
  (opponent : policy -> ObsType -> list bool -> Z * policy) (s : env policy) :
  wf s -> 0 < rows s ->
  let c := fst (opponent_choice opponent s) in
  (~ (0 <= c < Z.of_nat (columns s))%Z \/ column_full (_board s) (Z.to_nat c)) ->
  _opponent_move opponent s =
  (Err (InvalidOpponentMove c), set_opponent s (snd (opponent_choice opponent s))).
Proof.
  intros Hwf Hrows c Hbad. rewrite opponent_move_eq by auto. cbv zeta. fold c.
  destruct (contains (columns s) c) eqn:Hc; [|reflexivity].
  apply contains_range in Hc. destruct Hbad as [Hbad|Hfull]; [lia|].
  now rewrite (column_full_top _ _ _ _ Hwf Hfull).
Qed.

(** C4. When the opponent's turn is reached in [step] (the agent's action
    was accepted and its move neither won nor filled the board) and the
    opponent callable answers a column that is out of range or full,
    [step] raises the "invalid opponent move" error carrying that column,
    and the grid and [_num_moves] are those of the state right after the
    agent's move: the agent's piece stays, nothing is played for the
    opponent. *)
Theorem illegal_opponent_move_propagates (policy : Type)
  (opponent : policy -> ObsType -> list bool -> Z * policy)
  (s : env policy) (action : Z) (row : nat) (s1 : env policy) :
  wf s ->
  illegal action s = (Ok false, s) ->
  _move action 1 s = (Ok row, s1) ->
  _is_win row (Z.to_nat action) s1 = (Ok false, s1) ->
  is_full s1 = false ->
  (~ (0 <= fst (opponent_choice opponent s1) < Z.of_nat (columns s1))%Z
   \/ column_full (_board s1) (Z.to_nat (fst (opponent_choice opponent s1)))) ->
  exists s',
    step opponent action s =
    (Err (InvalidOpponentMove (fst (opponent_choice opponent s1))), s') /\
    _board s' = _board s1 /\
    _num_moves s' = _num_moves s1 /\
    _num_moves s1 = S (_num_moves s) /\
    cell (_board s1) row (Z.to_nat action) = Some 1%Z.
Proof.
  intros Hwf Hg Hm Hw Hnotfull Hbad.
  destruct (guarded_move_wf _ action 1 s row s1 Hwf Hg Hm) as (Hwf1 & Hrow & _).
  destruct (illegal_false _ _ _ Hwf Hg) as (Hc & Hrows & _).
  destruct (apply_move_effect policy InvalidAction s action 1 Hwf Hrows)
    as (_ & _ & Hres).
  rewrite apply_move_eq, Hg in Hres.
  destruct (Hres row s1 Hm) as (_ & _ & _ & _ & Hcell & _ & Hn & _).
  exists (set_opponent s1 (snd (opponent_choice opponent s1))).
  repeat split; auto.
  rewrite step_eq, Hg, Hm, Hw, Hnotfull, opponent_turn_eq.
  rewrite (opponent_move_refused policy opponent s1 Hwf1 ltac:(lia) Hbad).
  reflexivity.
Qed.

Lemma illegal_opponent_move_propagates_witness :
  exists s',
    step fixed_opponent 3 bad_opponent_game = (Err (InvalidOpponentMove 7), s') /\
    _board s' = [[0; 0; 0; 1; 0; 0; 0]; [0; 0; 0; 0; 0; 0; 0];
                 [0; 0; 0; 0; 0; 0; 0]; [0; 0; 0; 0; 0; 0; 0];
                 [0; 0; 0; 0; 0; 0; 0]; [0; 0; 0; 0; 0; 0; 0]]%Z /\
    _num_moves s' = 1.
Proof.
  destruct (illegal_opponent_move_propagates Z fixed_opponent bad_opponent_game 3 0
              (snd (_move 3 1 bad_opponent_game)))
    as (s' & Hstep & Hb & Hn & _).
  - split; [reflexivity | repeat constructor].
  - reflexivity.
  - reflexivity.
  - reflexivity.
  - reflexivity.
  - left. vm_compute. intros [_ H]. discriminate.
  - exists s'. rewrite Hb, Hn. split; [exact Hstep|]. split; reflexivity.
Defined.

(** ** The board dimensions never change *)

Section Config.

Variable policy : Type.
Variable opponent : policy -> ObsType -> list bool -> Z * policy.

Implicit Types s : env policy.

Lemma same_config_refl s : same_config s s.
Proof. repeat split. Qed.

Lemma move_loop_config (column piece : Z) (range : list nat) :
  forall s (r : result nat) s',
    _move_loop column piece range s = (r, s') -> same_config s s'.
Proof.
  induction range as [|row range IH]; intros s r s'.
  - intros [= _ <-]. apply same_config_refl.
  - cbn [_move_loop]. cbv [bind gets index ret raise modify].
    destruct (Np.getitem2 _ _ _) as [x|].
    + destruct (x =? 0)%Z.
      * intros [= _ <-]. repeat split.
      * apply IH.
    + intros [= _ <-]. apply same_config_refl.
Qed.

Lemma move_config (column piece : Z) s (r : result nat) s' :
  _move column piece s = (r, s') -> same_config s s'.
Proof.
  unfold _move. cbv [bind modify gets]. intros H.
  apply move_loop_config in H. exact H.
Qed.

Lemma opponent_move_config s (r : result (nat * Z)) s' :
  _opponent_move opponent s = (r, s') -> same_config s s'.
Proof.
  unfold _opponent_move, _get_observation, action_masks.
  cbv [bind gets index ret raise].
  destruct (Np.getitem (_board s) (-1)) as [top|].
  2:{ intros [= _ <-]. apply same_config_refl. }
  destruct (opponent _ _ _) as [c p].
  pose proof (illegal_state _ c (set_opponent s p)) as Hs.
  destruct (illegal c (set_opponent s p)) as [[[|]|e] s0]; simpl in Hs; subst s0;
    try (intros [= _ <-]; repeat split).
  destruct (_move c (-1) (set_opponent s p)) as [[r0|e] s2] eqn:Hm;
    intros [= _ <-]; apply (move_config _ _ _ _ _ Hm).
Qed.

Lemma step_config (action : Z) s (r : result step_result) s' :
  step opponent action s = (r, s') -> same_config s s'.
Proof.
  rewrite step_eq.
  destruct (illegal action s) as [[[|]|e] s0];
    try (intros [= _ <-]; apply same_config_refl).
  destruct (_move action 1 s) as [[row|e] s1] eqn:Hm.
  2:{ intros [= _ <-]. apply (move_config _ _ _ _ _ Hm). }
  pose proof (move_config _ _ _ _ _ Hm) as (H1 & H2 & H3).
  destruct (_is_win _ _ _) as [[[|]|e] s3];
    try (intros [= _ <-]; repeat split; assumption).
  destruct (is_full s1); [intros [= _ <-]; repeat split; assumption|].
  rewrite opponent_turn_eq.
  destruct (_opponent_move opponent s1) as [[[orow ocol]|e] s2] eqn:Hom.
  - pose proof (opponent_move_config _ _ _ Hom) as (H4 & H5 & H6).
    assert (same_config s s2) as Hcfg by (repeat split; congruence).
    destruct (_is_win _ _ _) as [[[|]|e] s4]; try (now intros [= _ <-]).
    destruct (is_full s2); now intros [= _ <-].
  - pose proof (opponent_move_config _ _ _ Hom) as (H4 & H5 & H6).
    intros [= _ <-]. repeat split; congruence.
Qed.

(** [step] raises "invalid action" exactly when its guard fails. *)
Lemma step_invalid_action (action : Z) s :
  invariant s -> 0 < rows s ->
  (step opponent action s = (Err InvalidAction, s) <->
   (~ (0 <= action < Z.of_nat (columns s))%Z
    \/ column_full (_board s) (Z.to_nat action))) /\
  (fst (step opponent action s) = Err InvalidAction ->
   step opponent action s = (Err InvalidAction, s)).
Proof.
  intros Hinv Hrows. pose proof Hinv as (Hwf & _ & _ & Hgr).
  assert (illegal action s = (Ok false, s) ->
          fst (step opponent action s) <> Err InvalidAction) as Hlegal.
  { intros Hg. rewrite step_eq, Hg.
    destruct (guarded_move _ action 1 s Hwf Hg) as (row & _ & Hm). rewrite Hm.
    destruct (guarded_move_wf _ action 1 s row _ Hwf Hg Hm) as (Hwf1 & _).
    destruct (_is_win _ _ _) as [[[|]|e] s3] eqn:Hw; try discriminate.
    - destruct (is_full _); [discriminate|].
      rewrite opponent_turn_eq.
      destruct (_opponent_move opponent _) as [[[orow ocol]|e] s2] eqn:Hom.
      + destruct (_is_win orow _ _) as [[[|]|e] s4] eqn:Hw2; try discriminate.
        * destruct (is_full s2); discriminate.
        * apply is_win_err in Hw2. subst e. discriminate.
      + pose proof (opponent_move_result _ opponent _ _ _ Hwf1 Hom) as [-> | ->];
          discriminate.
    - apply is_win_err in Hw. subst e. discriminate. }
  destruct (contains (columns s) action) eqn:Hc.
  - pose proof (illegal_in_range _ action s Hwf Hrows Hc) as Hg.
    apply contains_range in Hc.
    assert (Z.to_nat action < columns s) as Hc' by lia.
    pose proof (gravity_column_full _ _ _ _ Hwf Hgr Hrows Hc') as Hfull.
    destruct (is_empty_at _ _ _) eqn:E; cbn [negb] in Hg.
    + specialize (Hlegal Hg). split.
      * split.
        -- intros H. rewrite H in Hlegal. now contradiction Hlegal.
        -- intros [H|H]; [lia|]. apply Hfull in H. discriminate.
      * intros H. contradiction.
    + assert (step opponent action s = (Err InvalidAction, s)) as Hstep
        by (now rewrite step_eq, Hg).
      split; [|auto]. split; auto. intros _. right. now apply Hfull.
  - assert (step opponent action s = (Err InvalidAction, s)) as Hstep
      by (now rewrite step_eq, illegal_out_of_range).
    split; [|auto]. split; auto. intros _. left.
    intros H. apply contains_range in H. congruence.
Qed.

End Config.

(** C3, as the code has it.  The environment keeps no record that an
    episode has ended.  In the state left by a [step] that returned
    [terminated = true], a further [step] raises "invalid action" (and
    leaves the state alone) exactly for the actions that are out of range
    or whose column is full; in particular for every action when the board
    is full. *)
Theorem step_after_termination (policy : Type)
  (opponent : policy -> ObsType -> list bool -> Z * policy)
  (s : env policy) (action : Z) (res : step_result) (s1 : env policy) :
  reachable opponent s ->
  step opponent action s = (Ok res, s1) ->
  terminated res = true ->
  forall action',
    (step opponent action' s1 = (Err InvalidAction, s1) <->
     (~ (0 <= action' < Z.of_nat (columns s1))%Z
      \/ column_full (_board s1) (Z.to_nat action'))) /\
    (fst (step opponent action' s1) = Err InvalidAction ->
     snd (step opponent action' s1) = s1) /\
    (board_full (_board s1) = true ->
     step opponent action' s1 = (Err InvalidAction, s1)).
Proof.
  intros Hreach Hstep _ action'.
  assert (reachable opponent s1) as Hreach1
    by (eapply reach_step; eauto).
  pose proof (reachable_invariant _ _ _ Hreach) as (Hwf & _).
  pose proof (reachable_invariant _ _ _ Hreach1) as Hinv1.
  assert (0 < rows s1) as Hrows1.
  { destruct (step_config _ _ _ _ _ _ Hstep) as (-> & _).
    rewrite step_eq in Hstep.
    destruct (illegal action s) as [[[|]|e] s0] eqn:Hg; try discriminate.
    pose proof (illegal_state _ action s) as Hs. rewrite Hg in Hs.
    simpl in Hs. subst s0.
    now destruct (illegal_false _ _ _ Hwf Hg) as (_ & ? & _). }
  destruct (step_invalid_action _ opponent action' s1 Hinv1 Hrows1) as (Hiff & Hst).
  split; [exact Hiff|]. split.
  - intros H. now rewrite (Hst H).
  - intros Hfull. apply Hiff.
    destruct (Z_lt_le_dec action' 0) as [Hneg|Hpos]; [left; lia|].
    destruct (Z_lt_le_dec action' (Z.of_nat (columns s1))) as [Hlt|Hge];
      [|left; lia].
    right. intros r Hr Hcell.
    unfold cell in Hcell.
    destruct (nth_error (_board s1) r) as [line|] eqn:El; [|discriminate].
    unfold board_full in Hfull. rewrite forallb_forall in Hfull.
    specialize (Hfull line (nth_error_In _ _ El)).
    rewrite forallb_forall in Hfull.
    specialize (Hfull 0%Z (nth_error_In _ _ Hcell)). discriminate.
Qed.

Lemma step_after_termination_witness :
  (step fixed_opponent 7 won_game = (Err InvalidAction, won_game) <->
   (~ (0 <= 7 < Z.of_nat (columns won_game))%Z
    \/ column_full (_board won_game) (Z.to_nat 7))) /\
  (fst (step fixed_opponent 7 won_game) = Err InvalidAction ->
   snd (step fixed_opponent 7 won_game) = won_game) /\
  (board_full (_board won_game) = true ->
   step fixed_opponent 7 won_game = (Err InvalidAction, won_game)).
Proof.
  apply (step_after_termination Z fixed_opponent three_game 3
           (StepResult (planes 1 (_board won_game)) 1 true false) won_game).
  - exact three_game_reachable.
  - reflexivity.
  - reflexivity.
Defined.

(** C3, as stated, fails: after the agent has won with four pieces in
    column 3 ([step] returned [terminated = true]), a further [step 3] is
    not refused; it puts a fifth piece in the column. *)
Lemma step_after_win_is_applied :
  reachable fixed_opponent three_game /\
  (exists res, step fixed_opponent 3 three_game = (Ok res, won_game) /\
               terminated res = true) /\
  (exists res, step fixed_opponent 3 won_game = (Ok res, five_game) /\
               _num_moves five_game = S (_num_moves won_game) /\
               cell (_board won_game) 4 3 = Some 0%Z /\
               cell (_board five_game) 4 3 = Some 1%Z) /\
  ~ (forall (s : env Z) action res s1 action',
       reachable fixed_opponent s ->
       step fixed_opponent action s = (Ok res, s1) ->
       terminated res = true ->
       fst (step fixed_opponent action' s1) = Err InvalidAction).
Proof.
  split; [exact three_game_reachable|]. split; [|split].
  - eexists. split; reflexivity.
  - eexists. repeat split; reflexivity.
  - intros H.
    specialize (H three_game 3%Z _ won_game 3%Z three_game_reachable
                  eq_refl eq_refl).
    vm_compute in H. discriminate.
Qed.

(** ** The opening move of [reset] *)

Section Opening.

Variable policy : Type.
Variable opponent : policy -> ObsType -> list bool -> Z * policy.

Implicit Types s : env policy.

Lemma lowest_empty_zeros (nrows ncols c r : nat) :
  lowest_empty (Np.zeros nrows ncols) nrows c = Some r -> r = 0.
Proof.
  intros H. apply lowest_empty_some in H. destruct H as (Hr & Hcell & Hlow).
  destruct r as [|r]; auto. exfalso.
  specialize (Hlow 0 ltac:(lia)). unfold is_empty_at in Hlow.
  destruct (cell_some_bounds _ _ _ _ _ _ (wf_board_zeros nrows ncols) Hcell)
    as [_ Hc].
  destruct (cell_in_bounds _ _ _ 0 c (wf_board_zeros nrows ncols)
              ltac:(lia) Hc) as [x Hx].
  rewrite Hx in Hlow. rewrite (cell_zeros _ _ _ _ _ Hx) in Hlow. discriminate.
Qed.

(** The opponent's move on a cleared board: either it is refused and the
    board stays empty, or one opponent piece lies at the bottom of the
    chosen column. *)
Lemma opening_move (nrows ncols : nat) (wl : Z) (p : policy)
  (r : result (nat * Z)) s :
  _opponent_move opponent (Env nrows ncols wl p (Np.zeros nrows ncols) 0) = (r, s) ->
  match r with
  | Ok (orow, ocol) =>
      orow = 0 /\ 0 < nrows /\ Z.to_nat ocol < ncols /\
      _board s = Np.setitem2 (Np.zeros nrows ncols) 0 (Z.of_nat (Z.to_nat ocol)) (-1)%Z /\
      _num_moves s = 1
  | Err e => _board s = Np.zeros nrows ncols /\ _num_moves s = 0
  end.
Proof.
  set (s0 := Env nrows ncols wl p (Np.zeros nrows ncols) 0).
  assert (wf s0) as Hwf by apply wf_board_zeros.
  intros H. destruct (Nat.eq_dec nrows 0) as [H0|H0].
  { rewrite opponent_move_no_rows in H by auto. now injection H as <- <-. }
  rewrite opponent_move_eq in H by (auto; simpl; lia). cbv zeta in H.
  set (c := fst (opponent_choice opponent s0)) in *.
  set (s1 := set_opponent s0 (snd (opponent_choice opponent s0))) in *.
  destruct (contains (columns s0) c) eqn:Hc; cbn [negb orb] in H.
  2:{ now injection H as <- <-. }
  destruct (is_empty_at (_board s0) (Z.to_nat c) (rows s0 - 1)) eqn:Etop;
    cbn [negb] in H.
  2:{ now injection H as <- <-. }
  apply contains_range in Hc.
  rewrite (move_eq _ c (-1) s1 Hwf Hc) in H.
  destruct (lowest_empty (_board s1) (rows s1) (Z.to_nat c)) as [r0|] eqn:El.
  - pose proof (lowest_empty_zeros _ _ _ _ El) as ->.
    injection H as <- <-. simpl in *.
    repeat split; try lia. now rewrite Z2Nat.id by lia.
  - destruct (lowest_empty_exists (_board s0) (rows s0) (Z.to_nat c) (rows s0 - 1)
                ltac:(simpl; lia) Etop) as [r0 Hr0].
    change (lowest_empty (_board s0) (rows s0) (Z.to_nat c) = None) in El.
    congruence.
Qed.

Lemma single_piece_cell (nrows ncols c : nat) (r' c' : nat) (x : Z) :
  0 < nrows -> c < ncols -> x <> 0%Z ->
  cell (Np.setitem2 (Np.zeros nrows ncols) 0 (Z.of_nat c) (-1)%Z) r' c' = Some x ->
  r' = 0 /\ c' = c.
Proof.
  intros Hr Hc Hx H.
  destruct (Nat.eq_dec r' 0) as [->|Hr'], (Nat.eq_dec c' c) as [->|Hc']; auto;
    exfalso;
    rewrite (setitem2_cell_other _ _ _ 0 c (-1)%Z (wf_board_zeros nrows ncols) Hr Hc)
      in H by congruence;
    apply cell_zeros in H; contradiction.
Qed.

Lemma single_piece_no_run (nrows ncols c : nat) (wl : Z) (row col : nat) :
  0 < nrows -> c < ncols -> (2 <= wl)%Z ->
  ~ run_through (Np.setitem2 (Np.zeros nrows ncols) 0 (Z.of_nat c) (-1)%Z)
                (-1)%Z wl row col.
Proof.
  intros Hr Hc Hwl (d & r0 & c0 & n & Hd & Hn & Hall & _).
  pose proof (Hall 0 ltac:(lia)) as H0. pose proof (Hall 1 ltac:(lia)) as H1.
  apply cellZ_some_nat in H0, H1.
  destruct H0 as (Hr0 & Hc0 & H0). destruct H1 as (Hr1 & Hc1 & H1).
  assert ((-1)%Z <> 0%Z) as Hne by discriminate.
  apply (single_piece_cell nrows ncols c _ _ (-1)%Z Hr Hc Hne) in H0, H1.
  simpl in Hd. destruct Hd as [<-|[<-|[<-|[<-|[]]]]]; simpl in *; lia.
Qed.

Lemma count_single_piece (f : Z -> bool) (nrows ncols c : nat) :
  0 < nrows -> c < ncols -> f 0%Z = false ->
  count_cells f (Np.setitem2 (Np.zeros nrows ncols) 0 (Z.of_nat c) (-1)%Z) =
  if f (-1)%Z then 1 else 0.
Proof.
  intros Hr Hc Hf.
  destruct (cell_in_bounds _ _ _ 0 c (wf_board_zeros nrows ncols) Hr Hc) as [x Hx].
  pose proof (cell_zeros _ _ _ _ _ Hx). subst x.
  pose proof (setitem2_count f _ _ _ 0 c (-1)%Z 0%Z (wf_board_zeros nrows ncols) Hx)
    as Hcount.
  rewrite Hf, (count_cells_zeros f _ _ Hf) in Hcount. simpl Z.of_nat in Hcount.
  destruct (f (-1)%Z); lia.
Qed.

Lemma is_empty_at_zeros (nrows ncols c r : nat) :
  r < nrows -> c < ncols -> is_empty_at (Np.zeros nrows ncols) c r = true.
Proof.
  intros Hr Hc. unfold is_empty_at.
  destruct (cell_in_bounds _ _ _ r c (wf_board_zeros nrows ncols) Hr Hc) as [x Hx].
  rewrite Hx. now rewrite (cell_zeros _ _ _ _ _ Hx).
Qed.

(** [_opponent_move] on a cleared board that has a row, in closed form:
    an answer in range is played in the bottom row, any other answer is
    refused and the board stays empty. *)
Lemma opening_move_eq (nrows ncols : nat) (wl : Z) (p : policy) :
  0 < nrows ->
  _opponent_move opponent (Env nrows ncols wl p (Np.zeros nrows ncols) 0) =
  let choice :=
    opponent_choice opponent (Env nrows ncols wl p (Np.zeros nrows ncols) 0) in
  if contains ncols (fst choice)
  then (Ok (0, fst choice),
        Env nrows ncols wl (snd choice)
            (Np.setitem2 (Np.zeros nrows ncols) 0 (fst choice) (-1)%Z) 1)
  else (Err (InvalidOpponentMove (fst choice)),
        Env nrows ncols wl (snd choice) (Np.zeros nrows ncols) 0).
Proof.
  intros Hrows.
  set (s0 := Env nrows ncols wl p (Np.zeros nrows ncols) 0).
  assert (wf s0) as Hwf by apply wf_board_zeros.
  rewrite opponent_move_eq by auto. cbv zeta.
  set (c := fst (opponent_choice opponent s0)).
  set (s1 := set_opponent s0 (snd (opponent_choice opponent s0))).
  change (columns s0) with ncols.
  destruct (contains ncols c) eqn:Hc; cbn [negb orb]; [|reflexivity].
  apply contains_range in Hc.
  change (_board s0) with (Np.zeros nrows ncols). change (rows s0) with nrows.
  rewrite is_empty_at_zeros by lia. cbn [negb].
  rewrite (move_eq _ c (-1) s1 Hwf Hc).
  change (_board s1) with (Np.zeros nrows ncols). change (rows s1) with nrows.
  destruct (lowest_empty_exists (Np.zeros nrows ncols) nrows (Z.to_nat c) (nrows - 1))
    as [r0 Hr0]; [lia | apply is_empty_at_zeros; lia |].
  rewrite Hr0. pose proof (lowest_empty_zeros _ _ _ _ Hr0) as ->. reflexivity.
Qed.

(** One piece on a board of at least two cells does not fill it, and with
    [win_length >= 2] it is not a winning run: the checks that follow an
    in-episode opponent move are both negative after the opening move. *)
Lemma opening_move_no_win (nrows ncols : nat) (wl : Z) (p : policy)
  (orow : nat) (ocol : Z) s :
  (2 <= wl)%Z ->
  _opponent_move opponent (Env nrows ncols wl p (Np.zeros nrows ncols) 0) =
  (Ok (orow, ocol), s) ->
  _is_win orow (Z.to_nat ocol) s = (Ok false, s).
Proof.
  intros Hwl Hom.
  pose proof (invariant_cleared policy nrows ncols wl p) as Hinv.
  destruct (opponent_move_landing _ opponent _ orow ocol s Hinv Hom) as (Hinv1 & Hw).
  rewrite Hw. f_equal. f_equal.
  destruct (opponent_move_config _ opponent _ _ _ Hom) as (Hr1 & Hc1 & Hwl1).
  pose proof (opening_move _ _ _ _ _ _ Hom) as (-> & Hrows & Hc & Hb & _).
  destruct (rescan _ _ _ _ _ _) eqn:E; auto. exfalso.
  destruct Hinv1 as (Hwf1 & _).
  assert (cell (_board s) 0 (Z.to_nat ocol) = Some (-1)%Z) as Hcell.
  { rewrite Hb.
    apply (setitem2_cell_same _ _ _ 0 (Z.to_nat ocol) (-1)%Z
             (wf_board_zeros _ _) Hrows Hc). }
  apply (rescan_run_through _ _ _ (win_length s) 0 (Z.to_nat ocol) (-1)%Z
           Hwf1 Hcell) in E.
  rewrite Hb, Hwl1 in E.
  apply (single_piece_no_run _ _ _ _ _ _ Hrows Hc Hwl E).
Qed.

End Opening.

(** C7. [reset] clears the grid and zeroes [_num_moves] regardless of the
    state before: its result depends only on [rows], [columns],
    [win_length], the fresh opponent and the draw.  When the draw is
    [false] no move is made.  When it is [true] the opponent makes one
    move through [_opponent_move], the routine of every in-episode opponent
    move: an answer in range is played as one opponent piece in the bottom
    row, any other answer raises the illegal opponent move and leaves the
    grid empty (a board with no rows raises [IndexError]).  So when
    [reset] returns, the grid holds no agent piece and either no piece at
    all or exactly one opponent piece, counted by [_num_moves]; when it
    raises, the grid is empty.  [reset] itself runs no win check after the
    move; with [win_length >= 2] the win check an in-episode move goes
    through is negative on the opening move and leaves the state as it
    is, and on a board that is not a single cell the whole in-episode
    opponent path of [step] (move, win check, full-board check), run on
    the cleared board, ends in the state [reset] ends in, raises what
    [reset] raises, and returns the observation [reset] returns with
    reward 0 and [terminated = false]. *)
Theorem reset_clears_then_opening_move (policy : Type)
  (opponent : policy -> ObsType -> list bool -> Z * policy)
  (s0 : env policy) (fresh : policy) (coin : bool) :
  let empty := Np.zeros (rows s0) (columns s0) in
  let cleared := Env (rows s0) (columns s0) (win_length s0) fresh empty 0 in
  let column := fst (opponent_choice opponent cleared) in
  let next := snd (opponent_choice opponent cleared) in
  let opened :=
    Env (rows s0) (columns s0) (win_length s0) next
        (Np.setitem2 empty 0 column (-1)%Z) 1 in
  (forall s0' : env policy,
     same_config s0 s0' ->
     reset opponent fresh coin s0' = reset opponent fresh coin s0) /\
  (coin = false ->
   reset opponent fresh coin s0 = (Ok (planes 1 empty), cleared)) /\
  (coin = true ->
   reset opponent fresh coin s0 =
   match _opponent_move opponent cleared with
   | (Ok _, s1) => (Ok (planes 1 (_board s1)), s1)
   | (Err e, s1) => (Err e, s1)
   end) /\
  (coin = true -> 0 < rows s0 ->
   (0 <= column < Z.of_nat (columns s0))%Z ->
   reset opponent fresh coin s0 = (Ok (planes 1 (_board opened)), opened)) /\
  (coin = true -> 0 < rows s0 ->
   ~ (0 <= column < Z.of_nat (columns s0))%Z ->
   reset opponent fresh coin s0 =
   (Err (InvalidOpponentMove column),
    Env (rows s0) (columns s0) (win_length s0) next empty 0)) /\
  (coin = true -> rows s0 = 0 ->
   reset opponent fresh coin s0 = (Err IndexError, cleared)) /\
  (forall r s,
     reset opponent fresh coin s0 = (r, s) ->
     match r with
     | Ok obs =>
         obs = planes 1 (_board s) /\
         _num_moves s = count_occupied (_board s) /\
         count_cells (fun x => (x =? 1)%Z) (_board s) = 0 /\
         ((coin = false /\ count_occupied (_board s) = 0) \/
          (coin = true /\
           count_occupied (_board s) = 1 /\
           count_cells (fun x => (x =? -1)%Z) (_board s) = 1 /\
           cell (_board s) 0 (Z.to_nat column) = Some (-1)%Z /\
           forall r' c' x,
             cell (_board s) r' c' = Some x -> x <> 0%Z ->
             r' = 0 /\ c' = Z.to_nat column))
     | Err e =>
         coin = true /\
         (e = InvalidOpponentMove column \/ e = IndexError) /\
         _board s = empty /\
         count_occupied (_board s) = 0 /\
         _num_moves s = 0
     end) /\
  ((2 <= win_length s0)%Z ->
   forall orow ocol s1,
     _opponent_move opponent cleared = (Ok (orow, ocol), s1) ->
     _is_win orow (Z.to_nat ocol) s1 = (Ok false, s1)) /\
  (coin = true -> (2 <= win_length s0)%Z -> rows s0 * columns s0 <> 1 ->
   match opponent_turn opponent cleared with
   | (Ok res, s1) =>
       res = StepResult (planes 1 (_board s1)) 0 false false /\
       reset opponent fresh coin s0 = (Ok (observation res), s1)
   | (Err e, s1) => reset opponent fresh coin s0 = (Err e, s1)
   end).
Proof.
  intros empty cleared column next opened.
  assert (wf cleared) as Hwf by apply wf_board_zeros.
  assert (0 < rows s0 -> (0 <= column < Z.of_nat (columns s0))%Z ->
          _opponent_move opponent cleared = (Ok (0, column), opened)) as Hplayed.
  { intros Hrows Hc. unfold cleared, empty.
    rewrite (opening_move_eq _ opponent _ _ _ _ Hrows). cbv zeta.
    fold empty. fold cleared. fold column. fold next.
    now rewrite (proj2 (contains_range _ _) Hc). }
  assert (0 < rows s0 -> ~ (0 <= column < Z.of_nat (columns s0))%Z ->
          _opponent_move opponent cleared =
          (Err (InvalidOpponentMove column),
           Env (rows s0) (columns s0) (win_length s0) next empty 0)) as Hrefused.
  { intros Hrows Hc. unfold cleared, empty.
    rewrite (opening_move_eq _ opponent _ _ _ _ Hrows). cbv zeta.
    fold empty. fold cleared. fold column. fold next.
    destruct (contains (columns s0) column) eqn:E; [|reflexivity].
    apply contains_range in E. contradiction. }
  assert (rows s0 = 0 ->
          _opponent_move opponent cleared = (Err IndexError, cleared)) as Hnorows.
  { intros H0. now apply opponent_move_no_rows. }
  assert (forall f, f 0%Z = false -> count_cells f empty = 0) as Hzero
    by (intros f Hf; now apply count_cells_zeros).
  assert ((2 <= win_length s0)%Z ->
          forall orow ocol s1,
            _opponent_move opponent cleared = (Ok (orow, ocol), s1) ->
            _is_win orow (Z.to_nat ocol) s1 = (Ok false, s1)) as Hnowin.
  { intros Hwl orow ocol s1 Hom.
    apply (opening_move_no_win _ opponent _ _ _ _ _ _ _ Hwl Hom). }
  split; [|split; [|split; [|split; [|split; [|split; [|split; [|split]]]]]]].
  - intros s0' (Hr & Hc & Hw). rewrite !reset_eq. cbv zeta.
    now rewrite Hr, Hc, Hw.
  - intros ->. now rewrite reset_eq.
  - intros ->. now rewrite reset_eq.
  - intros -> Hrows Hc. rewrite reset_eq. cbv zeta. fold empty. fold cleared.
    now rewrite (Hplayed Hrows Hc).
  - intros -> Hrows Hc. rewrite reset_eq. cbv zeta. fold empty. fold cleared.
    now rewrite (Hrefused Hrows Hc).
  - intros -> H0. rewrite reset_eq. cbv zeta. fold empty. fold cleared.
    now rewrite (Hnorows H0).
  - intros r s. rewrite reset_eq. cbv zeta. fold empty. fold cleared.
    destruct coin.
    2:{ intros [= <- <-]. cbn [_board _num_moves cleared]. unfold count_occupied.
        rewrite !Hzero by reflexivity. auto 6. }
    destruct (Nat.eq_dec (rows s0) 0) as [H0|H0].
    { rewrite (Hnorows H0). intros [= <- <-].
      cbn [_board _num_moves cleared]. unfold count_occupied.
      rewrite Hzero by reflexivity. auto 6. }
    assert (0 < rows s0) as Hrows by lia.
    destruct (Z_le_dec 0 column) as [Hlo|Hlo];
      [destruct (Z_lt_dec column (Z.of_nat (columns s0))) as [Hhi|Hhi]|].
    + rewrite (Hplayed Hrows (conj Hlo Hhi)). intros [= <- <-].
      assert (Z.to_nat column < columns s0) as Hc by lia.
      cbn [_board _num_moves opened].
      assert (Np.setitem2 empty 0 column (-1)%Z =
              Np.setitem2 (Np.zeros (rows s0) (columns s0)) 0
                          (Z.of_nat (Z.to_nat column)) (-1)%Z) as ->
        by (rewrite Z2Nat.id by lia; reflexivity).
      unfold count_occupied.
      rewrite !count_single_piece by auto.
      split; [reflexivity|]. split; [reflexivity|]. split; [reflexivity|].
      right. split; [reflexivity|]. split; [reflexivity|]. split; [reflexivity|].
      split.
      * apply (setitem2_cell_same _ _ _ 0 (Z.to_nat column) (-1)%Z
                 (wf_board_zeros _ _) Hrows Hc).
      * intros r' c' x Hx Hne.
        apply (single_piece_cell (rows s0) (columns s0) (Z.to_nat column)
                 r' c' x Hrows Hc Hne Hx).
    + rewrite (Hrefused Hrows ltac:(lia)). intros [= <- <-].
      cbn [_board _num_moves]. unfold count_occupied.
      rewrite Hzero by reflexivity. auto 6.
    + rewrite (Hrefused Hrows ltac:(lia)). intros [= <- <-].
      cbn [_board _num_moves]. unfold count_occupied.
      rewrite Hzero by reflexivity. auto 6.
  - exact Hnowin.
  - intros -> Hwl Hcells. rewrite reset_eq, opponent_turn_eq. cbv zeta.
    fold empty. fold cleared.
    destruct (_opponent_move opponent cleared) as [[[orow ocol]|e] s1] eqn:Hom;
      [|reflexivity].
    rewrite (Hnowin Hwl orow ocol s1 eq_refl).
    destruct (opponent_move_config _ opponent _ _ _ Hom) as (Hr1 & Hc1 & _).
    pose proof (opening_move _ opponent _ _ _ _ _ _ Hom) as (_ & _ & _ & _ & Hn).
    unfold is_full. rewrite Hn, Hr1, Hc1. cbn [rows columns cleared].
    destruct (Nat.eqb_spec 1 (rows s0 * columns s0)) as [E|E]; [lia|].
    split; reflexivity.
Qed.

Lemma reset_clears_then_opening_move_witness :
  reset fixed_opponent 3%Z true won_game =
  (Ok (planes 1 (_board opened_game)), opened_game) /\
  opponent_turn fixed_opponent (Env 6 7 4%Z 3%Z (Np.zeros 6 7) 0) =
  (Ok (StepResult (planes 1 (_board opened_game)) 0 false false), opened_game) /\
  _is_win 0 3 opened_game = (Ok false, opened_game) /\
  cell (_board opened_game) 0 3 = Some (-1)%Z /\
  _num_moves opened_game = 1.
Proof.
  pose proof (reset_clears_then_opening_move Z fixed_opponent won_game 3%Z true)
    as H.
  cbv zeta in H.
  destruct H as (_ & _ & _ & Hplayed & _ & _ & _ & Hnowin & Hturn).
  specialize (Hplayed eq_refl ltac:(simpl; lia) ltac:(cbn; lia)).
  specialize (Hnowin ltac:(simpl; lia) 0 3%Z opened_game eq_refl).
  specialize (Hturn eq_refl ltac:(simpl; lia) ltac:(simpl; lia)).
  split; [exact Hplayed|]. split; [|split; [exact Hnowin|split; reflexivity]].
  change (opponent_turn fixed_opponent (Env 6 7 4%Z 3%Z (Np.zeros 6 7) 0))
    with (opponent_turn fixed_opponent
            (Env (rows won_game) (columns won_game) (win_length won_game) 3%Z
                 (Np.zeros (rows won_game) (columns won_game)) 0)).
  destruct (opponent_turn fixed_opponent _) as [[res|e] s1].
  - destruct Hturn as (Hres & Hreset). rewrite Hplayed in Hreset.
    injection Hreset as _ Hs. subst s1. rewrite Hres. reflexivity.
  - rewrite Hplayed in Hturn. discriminate.
Defined.

(** Outside the range of [win_length] the specification admits, the win
    check does matter: with [win_length = 1] the in-episode opponent path
    run on the cleared board ends the episode (reward -1,
    [terminated = true]) because [_is_win] holds at the cell the opponent
    lands in, while [reset] with the draw [true] makes the same move and
    returns the observation alone, and the next [step] is played and
    returns reward 1. *)
Lemma reset_opening_move_not_win_checked :
  reset fixed_opponent 3%Z true short_env =
  (Ok (planes 1 (_board short_opened)), short_opened) /\
  opponent_turn fixed_opponent short_cleared =
  (Ok (StepResult (planes 1 (_board short_opened)) (-1) true false), short_opened) /\
  _is_win 0 3 short_opened = (Ok true, short_opened) /\
  step fixed_opponent 0 short_opened =
  (Ok (StepResult (planes 1 (_board short_played)) 1 true false), short_played).
Proof. repeat split; vm_compute; reflexivity. Qed.

(** * Further properties of the code *)

(** ** [_line_length] *)

Lemma run_prefix_le (v : Z) (rest : list Z) : run_prefix v rest <= length rest.
Proof.
  induction rest as [|x rest IH]; simpl; auto.
  destruct (x =? v)%Z; lia.
Qed.

Lemma run_prefix_stop (v : Z) (rest : list Z) (x : Z) :
  nth_error rest (run_prefix v rest) = Some x -> x <> v.
Proof.
  induction rest as [|y rest IH]; simpl; [discriminate|].
  destruct (Z.eqb_spec y v) as [->|Hne]; simpl.
  - exact IH.
  - now intros [= <-].
Qed.

(** X1. [_line_length] counts the cells after the first one that repeat it,
    up to the first that does not: the count stays below the length of the
    line, every cell up to the count equals the first, and the cell after
    the count, when there is one, differs.  An empty line counts 0. *)
Theorem line_length_counts_leading_repeats (first : Z) (rest : list Z) :
  _line_length [] = 0 /\
  _line_length (first :: rest) <= length rest /\
  (forall k, k <= _line_length (first :: rest) ->
     nth_error (first :: rest) k = Some first) /\
  (forall x, nth_error (first :: rest) (S (_line_length (first :: rest))) = Some x ->
     x <> first).
Proof.
  split; [reflexivity|]. split; [apply run_prefix_le|]. split.
  - intros k Hk. now apply line_length_all.
  - simpl. apply run_prefix_stop.
Qed.

(** ** The board of a reachable state *)

(** X2. In every reachable state the grid is a [rows] x [columns] array,
    its cells hold only 0, 1 or -1, and no piece floats: every cell above
    an empty cell of a column is empty. *)
Theorem reachable_board_is_stacked (policy : Type)
  (opponent : policy -> ObsType -> list bool -> Z * policy) (s : env policy) :
  reachable opponent s ->
  wf s /\ pieces_only (_board s) /\ gravity (_board s) /\
  (forall r c x, cell (_board s) r c = Some x ->
     r < rows s /\ c < columns s /\ (x = 0 \/ x = 1 \/ x = -1)%Z).
Proof.
  intros Hreach.
  destruct (reachable_invariant _ _ _ Hreach) as (Hwf & Hp & _ & Hg).
  repeat split; try apply Hwf; auto.
  - now destruct (cell_some_bounds _ _ _ _ _ _ Hwf H).
  - now destruct (cell_some_bounds _ _ _ _ _ _ Hwf H).
  - unfold cell in H.
    destruct (nth_error (_board s) r) as [line|] eqn:E; [|discriminate].
    unfold pieces_only in Hp. rewrite Forall_forall in Hp.
    specialize (Hp line (nth_error_In _ _ E)). rewrite Forall_forall in Hp.
    specialize (Hp x (nth_error_In _ _ H)). unfold is_piece in Hp.
    destruct (Z.eqb_spec x 0), (Z.eqb_spec x 1), (Z.eqb_spec x (-1));
      simpl in Hp; auto; discriminate.
Qed.

Lemma reachable_board_is_stacked_witness :
  wf won_game /\ pieces_only (_board won_game) /\ gravity (_board won_game) /\
  (forall r c x, cell (_board won_game) r c = Some x ->
     r < rows won_game /\ c < columns won_game /\ (x = 0 \/ x = 1 \/ x = -1)%Z).
Proof.
  apply (reachable_board_is_stacked Z fixed_opponent won_game).
  exact won_game_reachable.
Defined.

(** X3. Neither [step] nor [reset] ever reassigns [rows], [columns] or
    [win_length], whatever they return or raise. *)
Theorem step_and_reset_keep_config (policy : Type)
  (opponent : policy -> ObsType -> list bool -> Z * policy) (s : env policy) :
  (forall action, same_config s (snd (step opponent action s))) /\
  (forall fresh coin, same_config s (snd (reset opponent fresh coin s))).
Proof.
  split.
  - intros action. destruct (step opponent action s) as [r s'] eqn:E.
    apply (step_config _ _ _ _ _ _ E).
  - intros fresh coin. rewrite reset_eq. cbv zeta. destruct coin.
    + destruct (_opponent_move opponent _) as [[om|e] s1] eqn:E;
        apply opponent_move_config in E; exact E.
    + repeat split.
Qed.

(** ** Moves only fill empty cells *)

Section Fills.

Variable policy : Type.
Variable opponent : policy -> ObsType -> list bool -> Z * policy.

Implicit Types s : env policy.

Lemma differ_within_refl (b : list (list Z)) : differ_within b b [].
Proof. intros r c _. reflexivity. Qed.

Lemma fills_compose (b b1 b2 : list (list Z)) (cells1 cells2 : list (nat * nat)) :
  differ_within b b1 cells1 ->
  (forall r c, In (r, c) cells1 -> cell b r c = Some 0%Z) ->
  differ_within b1 b2 cells2 ->
  (forall r c, In (r, c) cells2 -> cell b1 r c = Some 0%Z) ->
  differ_within b b2 (cells1 ++ cells2) /\
  (forall r c, In (r, c) (cells1 ++ cells2) -> cell b r c = Some 0%Z).
Proof.
  intros Hd1 He1 Hd2 He2. split.
  - intros r c Hnin. rewrite Hd2, Hd1; auto; intros Hin; apply Hnin, in_or_app; auto.
  - intros r c Hin. apply in_app_or in Hin. destruct Hin as [Hin|Hin]; auto.
    assert (forall x y : nat * nat, {x = y} + {x <> y}) as Hdec
      by (decide equality; apply Nat.eq_dec).
    destruct (in_dec Hdec (r, c) cells1) as [Hin1|Hnin1]; auto.
    rewrite <- (Hd1 r c Hnin1). auto.
Qed.

Lemma move_fills (column piece : Z) s (r : result nat) s' :
  wf s -> (0 <= column < Z.of_nat (columns s))%Z ->
  _move column piece s = (r, s') ->
  wf s' /\
  exists cells,
    length cells <= 1 /\
    differ_within (_board s) (_board s') cells /\
    (forall r c, In (r, c) cells -> cell (_board s) r c = Some 0%Z).
Proof.
  intros Hwf Hc H. rewrite move_eq in H by auto.
  assert (Z.to_nat column < columns s) as Hc' by lia.
  remember (Z.to_nat column) as c0 eqn:Hc0.
  assert (column = Z.of_nat c0) as -> by lia. clear Hc0.
  destruct (lowest_empty _ _ _) as [r0|] eqn:El.
  - injection H as _ <-. apply lowest_empty_some in El.
    destruct El as (Hr0 & Hcell & _).
    split; [apply (setitem2_wf _ _ _ _ _ _ Hwf Hr0 Hc')|].
    exists [(r0, c0)]. simpl. split; [lia|]. split.
    + intros r1 c1 Hnin.
      apply (setitem2_cell_other _ _ _ _ _ _ Hwf Hr0 Hc').
      intros Heq. apply Hnin. left. now symmetry.
    + intros r1 c1 [[= <- <-]|[]]. exact Hcell.
  - injection H as _ <-. split; [exact Hwf|].
    exists []. simpl. split; [lia|]. split; [apply differ_within_refl|].
    intros r1 c1 [].
Qed.

Lemma opponent_move_fills s (r : result (nat * Z)) s' :
  wf s -> _opponent_move opponent s = (r, s') ->
  wf s' /\
  exists cells,
    length cells <= 1 /\
    differ_within (_board s) (_board s') cells /\
    (forall r c, In (r, c) cells -> cell (_board s) r c = Some 0%Z).
Proof.
  intros Hwf H.
  assert (wf s /\
          exists cells : list (nat * nat),
            length cells <= 1 /\
            differ_within (_board s) (_board s) cells /\
            (forall r c, In (r, c) cells -> cell (_board s) r c = Some 0%Z))
    as Hsame.
  { split; [exact Hwf|]. exists []. simpl. split; [lia|].
    split; [apply differ_within_refl|]. intros r1 c1 []. }
  destruct (Nat.eq_dec (rows s) 0) as [H0|H0].
  { rewrite opponent_move_no_rows in H by auto. now injection H as _ <-. }
  rewrite opponent_move_eq in H by (auto; lia). cbv zeta in H.
  set (c := fst (opponent_choice opponent s)) in *.
  set (s1 := set_opponent s (snd (opponent_choice opponent s))) in *.
  destruct (contains (columns s) c) eqn:Hc; cbn [negb orb] in H.
  2:{ now injection H as _ <-. }
  destruct (negb _) in H.
  { now injection H as _ <-. }
  apply contains_range in Hc.
  destruct (_move c (-1) s1) as [[r0|e] s2] eqn:Hm;
    injection H as _ <-; apply (move_fills c (-1) s1 _ s2 Hwf Hc Hm).
Qed.

Lemma step_fills (action : Z) s (r : result step_result) s' :
  wf s -> step opponent action s = (r, s') ->
  exists cells,
    length cells <= 2 /\
    differ_within (_board s) (_board s') cells /\
    (forall r c, In (r, c) cells -> cell (_board s) r c = Some 0%Z).
Proof.
  intros Hwf. rewrite step_eq.
  assert (exists cells : list (nat * nat),
            length cells <= 2 /\
            differ_within (_board s) (_board s) cells /\
            (forall r c, In (r, c) cells -> cell (_board s) r c = Some 0%Z))
    as Hsame.
  { exists []. simpl. split; [lia|].
    split; [apply differ_within_refl|]. intros r1 c1 []. }
  destruct (illegal action s) as [[[|]|e] s0] eqn:Hg;
    try (now intros [= _ <-]).
  pose proof (illegal_state _ action s) as Hs. rewrite Hg in Hs.
  simpl in Hs. subst s0.
  destruct (illegal_false _ _ _ Hwf Hg) as (Hc & _ & _).
  destruct (_move action 1 s) as [[row|e] s1] eqn:Hm.
  2:{ intros [= _ <-].
      destruct (move_fills action 1 s _ s1 Hwf Hc Hm) as (_ & cells & Hl & Hd & He).
      exists cells. repeat split; auto; lia. }
  destruct (move_fills action 1 s _ s1 Hwf Hc Hm) as (Hwf1 & cells1 & Hl1 & Hd1 & He1).
  assert (exists cells : list (nat * nat),
            length cells <= 2 /\
            differ_within (_board s) (_board s1) cells /\
            (forall r c, In (r, c) cells -> cell (_board s) r c = Some 0%Z))
    as Hone by (exists cells1; repeat split; auto; lia).
  destruct (_is_win _ _ _) as [[[|]|e] s3]; try (now intros [= _ <-]).
  destruct (is_full s1); [now intros [= _ <-]|].
  rewrite opponent_turn_eq.
  destruct (_opponent_move opponent s1) as [[[orow ocol]|e] s2] eqn:Hom;
    destruct (opponent_move_fills s1 _ s2 Hwf1 Hom) as (_ & cells2 & Hl2 & Hd2 & He2);
    destruct (fills_compose _ _ _ _ _ Hd1 He1 Hd2 He2) as (Hd & He);
    assert (exists cells : list (nat * nat),
              length cells <= 2 /\
              differ_within (_board s) (_board s2) cells /\
              (forall r c, In (r, c) cells -> cell (_board s) r c = Some 0%Z))
      as Htwo
      by (exists (cells1 ++ cells2); rewrite length_app; repeat split; auto; lia).
  - destruct (_is_win _ _ _) as [[[|]|e] s4]; try (now intros [= _ <-]).
    destruct (is_full s2); now intros [= _ <-].
  - now intros [= _ <-].
Qed.

End Fills.

(** X4. On a well-formed board, one call of [step], returning or raising,
    changes at most two cells, each of which was empty before; so every
    piece on the board is still there, and unchanged, afterwards. *)
Theorem step_only_fills_empty_cells (policy : Type)
  (opponent : policy -> ObsType -> list bool -> Z * policy)
  (s : env policy) (action : Z) :
  wf s ->
  (exists cells,
     length cells <= 2 /\
     differ_within (_board s) (_board (snd (step opponent action s))) cells /\
     (forall r c, In (r, c) cells -> cell (_board s) r c = Some 0%Z)) /\
  keeps_pieces (_board s) (_board (snd (step opponent action s))).
Proof.
  intros Hwf. destruct (step opponent action s) as [r s'] eqn:E. simpl.
  destruct (step_fills _ opponent action s r s' Hwf E) as (cells & Hl & Hd & He).
  split; [exists cells; auto|].
  intros r0 c0 x Hcell Hx. rewrite Hd; auto.
  intros Hin. rewrite (He _ _ Hin) in Hcell. congruence.
Qed.

Lemma step_only_fills_empty_cells_witness :
  (exists cells,
     length cells <= 2 /\
     differ_within (_board three_game)
                   (_board (snd (step fixed_opponent 3 three_game))) cells /\
     (forall r c, In (r, c) cells -> cell (_board three_game) r c = Some 0%Z)) /\
  keeps_pieces (_board three_game)
               (_board (snd (step fixed_opponent 3 three_game))).
Proof.
  apply (step_only_fills_empty_cells Z fixed_opponent three_game 3).
  split; [reflexivity | repeat constructor].
Defined.

(** ** The mask and the guard *)

Section Mask.

Variable policy : Type.
Variable opponent : policy -> ObsType -> list bool -> Z * policy.

Implicit Types s : env policy.

Lemma action_masks_no_rows s :
  wf s -> rows s = 0 -> action_masks s = (Err IndexError, s).
Proof.
  intros Hwf H0. unfold action_masks. cbv [bind gets index ret raise].
  now rewrite (getitem_top _ _ _ Hwf), H0.
Qed.

Lemma action_masks_eq s :
  wf s -> 0 < rows s ->
  exists top,
    nth_error (_board s) (rows s - 1) = Some top /\
    length top = columns s /\
    action_masks s = (Ok (Np.eq_scalar 0 top), s).
Proof.
  intros Hwf Hrows.
  destruct (wf_board_nth _ _ _ (rows s - 1) Hwf ltac:(lia)) as (top & Etop & Hlen).
  exists top. split; [exact Etop|]. split; [exact Hlen|].
  unfold action_masks. cbv [bind gets index ret].
  rewrite (getitem_top _ _ _ Hwf).
  destruct (Nat.eqb_spec (rows s) 0); [lia|]. now rewrite Etop.
Qed.

Lemma mask_true_iff s (mask : list bool) (c : nat) :
  wf s -> action_masks s = (Ok mask, s) -> c < columns s ->
  0 < rows s /\
  (nth_error mask c = Some true <->
   is_empty_at (_board s) c (rows s - 1) = true).
Proof.
  intros Hwf Hmask Hc.
  destruct (Nat.eq_dec (rows s) 0) as [H0|H0].
  { rewrite action_masks_no_rows in Hmask by auto. discriminate. }
  split; [lia|].
  destruct (action_masks_eq s Hwf ltac:(lia)) as (top & Etop & Hlen & Hm).
  rewrite Hm in Hmask. injection Hmask as <-.
  unfold Np.eq_scalar, is_empty_at, cell. rewrite nth_error_map, Etop.
  destruct (nth_error top c) as [x|] eqn:Ex; simpl.
  - split; [now intros [= ->] | now intros ->].
  - split; discriminate.
Qed.

Lemma opponent_move_err s (e : exn) s' :
  wf s -> 0 < rows s ->
  _opponent_move opponent s = (Err e, s') ->
  e = InvalidOpponentMove (fst (opponent_choice opponent s)) /\
  s' = set_opponent s (snd (opponent_choice opponent s)).
Proof.
  intros Hwf Hrows H. rewrite opponent_move_eq in H by auto. cbv zeta in H.
  set (c := fst (opponent_choice opponent s)) in *.
  set (s1 := set_opponent s (snd (opponent_choice opponent s))) in *.
  destruct (contains (columns s) c) eqn:Hc; cbn [negb orb] in H.
  2:{ now injection H as <- <-. }
  destruct (is_empty_at (_board s) (Z.to_nat c) (rows s - 1)) eqn:Etop;
    cbn [negb] in H.
  2:{ now injection H as <- <-. }
  apply contains_range in Hc.
  rewrite (move_eq _ c (-1) s1 Hwf Hc) in H.
  destruct (lowest_empty_exists (_board s) (rows s) (Z.to_nat c) (rows s - 1)
              ltac:(lia) Etop) as [r0 Hr0].
  change (_board s1) with (_board s) in H.
  change (rows s1) with (rows s) in H.
  rewrite Hr0 in H. discriminate.
Qed.

(** With the guard passed on a well-formed board, [step] returns, or
    raises the opponent's illegal move after the agent's piece is placed. *)
Lemma step_guard_passed (action : Z) s :
  wf s -> illegal action s = (Ok false, s) ->
  match step opponent action s with
  | (Ok _, _) => True
  | (Err e, s') =>
      exists c, e = InvalidOpponentMove c /\ _num_moves s' = S (_num_moves s)
  end.
Proof.
  intros Hwf Hg. rewrite step_eq, Hg.
  destruct (guarded_move _ action 1 s Hwf Hg) as (row & _ & Hm). rewrite Hm.
  destruct (guarded_move_wf _ action 1 s row _ Hwf Hg Hm) as (Hwf1 & Hrow & Hcol).
  set (s1 := set_board _ _) in *.
  destruct (is_win_total _ row (Z.to_nat action) s1 Hwf1 Hrow ltac:(lia))
    as (w & ->).
  destruct w; [exact I|].
  destruct (is_full s1); [exact I|].
  rewrite opponent_turn_eq.
  destruct (_opponent_move opponent s1) as [[[orow ocol]|e] s2] eqn:Hom.
  - destruct (opponent_move_result _ opponent s1 _ _ Hwf1 Hom) as (Hwf2 & Hr2 & Hc2).
    destruct (is_win_total _ orow (Z.to_nat ocol) s2 Hwf2 Hr2 ltac:(lia))
      as (w & ->).
    destruct w; [exact I|]. destruct (is_full s2); exact I.
  - assert (0 < rows s1) as Hrows1 by lia.
    destruct (opponent_move_err s1 e s2 Hwf1 Hrows1 Hom) as (-> & ->).
    eexists. split; reflexivity.
Qed.

(** X5. On a well-formed board the mask returned by [action_masks] is the
    guard of [step]: an action is in range with its mask entry [true]
    exactly when [step] does not raise "invalid action" on it. *)
Theorem mask_is_step_guard (s : env policy) (mask : list bool) (action : Z) :
  wf s ->
  action_masks s = (Ok mask, s) ->
  (contains (columns s) action = true /\
   nth_error mask (Z.to_nat action) = Some true) <->
  fst (step opponent action s) <> Err InvalidAction.
Proof.
  intros Hwf Hmask.
  destruct (contains (columns s) action) eqn:Hc.
  - pose proof Hc as Hc'. apply contains_range in Hc'.
    destruct (mask_true_iff s mask (Z.to_nat action) Hwf Hmask ltac:(lia))
      as (Hrows & Hiff).
    pose proof (illegal_in_range _ action s Hwf Hrows Hc) as Hg.
    destruct (is_empty_at _ _ _) eqn:E; cbn [negb] in Hg.
    + split; [|intros _; split; [reflexivity | now apply Hiff]].
      intros _. pose proof (step_guard_passed action s Hwf Hg) as H.
      destruct (step opponent action s) as [[res|e] s']; simpl; [discriminate|].
      destruct H as (c & -> & _). discriminate.
    + split.
      * intros [_ H]. apply Hiff in H. discriminate.
      * intros H. exfalso. apply H. now rewrite step_eq, Hg.
  - split; [intros [H _]; discriminate|].
    intros H. exfalso. apply H. now rewrite step_eq, illegal_out_of_range.
Qed.


End Mask.

Lemma mask_is_step_guard_witness :
  (contains (columns three_game) 3 = true /\
   nth_error [true; true; true; true; true; true; true] (Z.to_nat 3) = Some true) <->
  fst (step fixed_opponent 3 three_game) <> Err InvalidAction.
Proof.
  apply (mask_is_step_guard Z fixed_opponent three_game).
  - split; [reflexivity | repeat constructor].
  - reflexivity.
Defined.


(** ** Observations *)

Lemma plane_shape_eq_scalar2 (nrows ncols : nat) (v : Z) (b : list (list Z)) :
  wf_board nrows ncols b -> plane_shape nrows ncols (Np.eq_scalar2 v b).
Proof.
  intros [Hlen Hall]. unfold plane_shape, Np.eq_scalar2. split.
  - now rewrite length_map.
  - apply Forall_forall. intros line Hin. apply in_map_iff in Hin.
    destruct Hin as (l & <- & Hl). unfold Np.eq_scalar. rewrite length_map.
    rewrite Forall_forall in Hall. now apply Hall.
Qed.

(** X7. On a well-formed board [_get_observation(player)] returns a stack
    of two [rows] x [columns] planes (the shape declared for the
    observation space) and leaves the state alone; plane 0 is set exactly
    at the cells that hold [player], plane 1 exactly at those that hold
    [-player]; and the observation for [-player] is the same two planes in
    the other order. *)
Theorem observation_shape_and_views (policy : Type) (s : env policy) (player : Z) :
  wf s ->
  exists plane0 plane1,
    _get_observation player s = (Ok [plane0; plane1], s) /\
    plane_shape (rows s) (columns s) plane0 /\
    plane_shape (rows s) (columns s) plane1 /\
    (forall r c, plane_cell plane0 r c = Some true <->
                 cell (_board s) r c = Some player) /\
    (forall r c, plane_cell plane1 r c = Some true <->
                 cell (_board s) r c = Some (- player)%Z) /\
    _get_observation (- player) s = (Ok [plane1; plane0], s).
Proof.
  intros Hwf.
  exists (Np.eq_scalar2 player (_board s)), (Np.eq_scalar2 (- player) (_board s)).
  assert (forall v r c,
            plane_cell (Np.eq_scalar2 v (_board s)) r c = Some true <->
            cell (_board s) r c = Some v) as Hcell.
  { intros v r c. rewrite plane_cell_eq_scalar2.
    destruct (cell (_board s) r c) as [x|]; simpl; [|split; discriminate].
    split.
    - intros [= H]. apply Z.eqb_eq in H. now subst x.
    - intros [= ->]. now rewrite Z.eqb_refl. }
  repeat split; try apply (plane_shape_eq_scalar2 _ _ _ _ Hwf); try apply Hcell.
  rewrite get_observation_eq. unfold planes. now rewrite Z.opp_involutive.
Qed.

Lemma observation_shape_and_views_witness :
  exists plane0 plane1,
    _get_observation (-1) won_game = (Ok [plane0; plane1], won_game) /\
    plane_shape (rows won_game) (columns won_game) plane0 /\
    plane_shape (rows won_game) (columns won_game) plane1 /\
    (forall r c, plane_cell plane0 r c = Some true <->
                 cell (_board won_game) r c = Some (-1)%Z) /\
    (forall r c, plane_cell plane1 r c = Some true <->
                 cell (_board won_game) r c = Some (- -1)%Z) /\
    _get_observation (- -1) won_game = (Ok [plane1; plane0], won_game).
Proof.
  apply (observation_shape_and_views Z won_game (-1)).
  split; [reflexivity | repeat constructor].
Defined.

(** ** Degenerate win lengths *)

Section WinLength.

Variable policy : Type.
Variable opponent : policy -> ObsType -> list bool -> Z * policy.

Implicit Types s : env policy.



(** A run along an axis fits in the larger board dimension. *)
Lemma run_fits (nrows ncols : nat) (b : list (list Z)) (v wl : Z)
  (row col : nat) (d : Z * Z) (r0 c0 : Z) (n : nat) :
  wf_board nrows ncols b -> In d axes ->
  is_run b v wl row col d r0 c0 n ->
  n <= Nat.max nrows ncols.
Proof.
  intros Hb Hd (_ & Hall & k & Hk & _).
  pose proof (Hall 0 ltac:(lia)) as H0. simpl in H0. rewrite !Z.add_0_r in H0.
  apply cellZ_some_nat in H0. destruct H0 as (Hr0 & Hc0 & H0).
  apply (cell_some_bounds _ _ _ _ _ _ Hb) in H0.
  pose proof (Hall (n - 1) ltac:(lia)) as Hn.
  apply cellZ_some_nat in Hn. destruct Hn as (Hrn & Hcn & Hn).
  apply (cell_some_bounds _ _ _ _ _ _ Hb) in Hn.
  simpl in Hd. destruct Hd as [<-|[<-|[<-|[<-|[]]]]]; simpl in *; lia.
Qed.

Lemma rescan_no_room (nrows ncols : nat) (b : list (list Z)) (wl : Z)
  (row col : nat) :
  wf_board nrows ncols b ->
  (Z.of_nat nrows < wl)%Z -> (Z.of_nat ncols < wl)%Z ->
  rescan nrows ncols b wl row col = false.
Proof.
  intros Hb Hr Hc. destruct (rescan nrows ncols b wl row col) eqn:E; auto.
  exfalso. pose proof E as E'. unfold rescan in E'.
  destruct (cell b row col) as [v|] eqn:Hcell; [|discriminate]. clear E'.
  apply (rescan_run_through _ _ _ wl row col v Hb Hcell) in E.
  destruct E as (d & r0 & c0 & n & Hd & Hrun).
  pose proof (run_fits _ _ _ _ _ _ _ _ _ _ _ Hb Hd Hrun) as Hn.
  destruct Hrun as (Hwl & _). lia.
Qed.

(** X9. With [win_length] larger than both [rows] and [columns] nobody can
    win: from a reachable state every [step] that returns has reward 0,
    and it reports [terminated = true] only when the board is full. *)
Theorem long_win_length_only_draws (s : env policy) (action : Z)
  (res : step_result) (s' : env policy) :
  reachable opponent s ->
  (Z.of_nat (rows s) < win_length s)%Z ->
  (Z.of_nat (columns s) < win_length s)%Z ->
  step opponent action s = (Ok res, s') ->
  reward res = 0%Z /\
  (terminated res = true <-> board_full (_board s') = true).
Proof.
  intros Hreach Hr Hc.
  pose proof (reachable_invariant _ _ _ Hreach) as Hinv.
  pose proof Hinv as (Hwf & _).
  rewrite step_eq.
  destruct (illegal action s) as [[[|]|e] s0] eqn:Hg; try discriminate.
  pose proof (illegal_state _ action s) as Hs. rewrite Hg in Hs.
  simpl in Hs. subst s0.
  destruct (illegal_false _ _ _ Hwf Hg) as (Hcol & _ & _).
  destruct (guarded_move _ action 1 s Hwf Hg) as (row & _ & Hm). rewrite Hm.
  set (s1 := set_board _ _) in *. clearbody s1.
  pose proof (move_is_win _ action 1 s row s1 Hinv Hg ltac:(discriminate) Hm) as Hw.
  pose proof (move_invariant _ action 1 s row s1 Hinv Hcol eq_refl
                ltac:(discriminate) Hm) as Hinv1.
  pose proof Hinv1 as (Hwf1 & _).
  destruct (move_config _ _ _ _ _ _ Hm) as (Hr1 & Hc1 & Hwl1).
  rewrite Hw, (rescan_no_room _ _ _ _ _ _ Hwf1).
  2:{ rewrite Hr1, Hwl1. exact Hr. }
  2:{ rewrite Hc1, Hwl1. exact Hc. }
  rewrite (is_full_board_full _ s1 Hinv1).
  destruct (board_full (_board s1)) eqn:Hf1.
  { intros [= <- <-]. simpl. split; [reflexivity|]. rewrite Hf1. tauto. }
  rewrite opponent_turn_eq.
  destruct (_opponent_move opponent s1) as [[[orow ocol]|e] s2] eqn:Hom;
    [|discriminate].
  destruct (opponent_move_landing _ opponent s1 orow ocol s2 Hinv1 Hom)
    as (Hinv2 & Hw2).
  destruct (opponent_move_config _ opponent _ _ _ Hom) as (Hr2 & Hc2 & Hwl2).
  pose proof Hinv2 as (Hwf2 & _).
  rewrite Hw2, (rescan_no_room _ _ _ _ _ _ Hwf2).
  2:{ rewrite Hr2, Hwl2, Hr1, Hwl1. exact Hr. }
  2:{ rewrite Hc2, Hwl2, Hc1, Hwl1. exact Hc. }
  rewrite (is_full_board_full _ s2 Hinv2).
  destruct (board_full (_board s2)) eqn:Hf2; intros [= <- <-]; simpl;
    (split; [reflexivity|]); rewrite Hf2; split; auto; discriminate.
Qed.

End WinLength.


Lemma tiny_game_reachable : reachable fixed_opponent tiny_game.
Proof.
  apply reach_reset with (s0 := Env 2 2 4%Z 0%Z [] 0) (fresh := 0%Z) (coin := false)
                         (r := Ok (planes 1 (_board tiny_game))).
  reflexivity.
Qed.

Lemma long_win_length_only_draws_witness :
  reward (StepResult (planes 1 (_board tiny_next)) 0 false false) = 0%Z /\
  (terminated (StepResult (planes 1 (_board tiny_next)) 0 false false) = true <->
   board_full (_board tiny_next) = true).
Proof.
  apply (long_win_length_only_draws Z fixed_opponent tiny_game 1 _ tiny_next).
  - exact tiny_game_reachable.
  - simpl. lia.
  - simpl. lia.
  - reflexivity.
Defined.

(** ** Progress and exceptions of [step] *)

Lemma count_occupied_le (nrows ncols : nat) (b : list (list Z)) :
  wf_board nrows ncols b -> count_occupied b <= nrows * ncols.
Proof.
  intros [Hlen Hall]. subst nrows. unfold count_occupied, count_cells.
  induction Hall as [|line b Hl _ IH]; simpl; auto.
  pose proof (count_row_le occupied line). lia.
Qed.

Section Progress.

Variable policy : Type.
Variable opponent : policy -> ObsType -> list bool -> Z * policy.

Implicit Types s : env policy.

Lemma opponent_move_counts s (orow : nat) (ocol : Z) s' :
  wf s -> _opponent_move opponent s = (Ok (orow, ocol), s') ->
  _num_moves s' = S (_num_moves s).
Proof.
  intros Hwf H.
  destruct (Nat.eq_dec (rows s) 0) as [H0|H0].
  { rewrite opponent_move_no_rows in H by auto. discriminate. }
  rewrite opponent_move_eq in H by (auto; lia). cbv zeta in H.
  destruct (negb (contains _ _) || negb _) eqn:Hbad; [discriminate|].
  apply orb_false_elim in Hbad. destruct Hbad as [Hc _].
  apply negb_false_iff, contains_range in Hc.
  rewrite move_eq in H by auto.
  destruct (lowest_empty _ _ _); [|discriminate].
  now injection H as _ _ <-.
Qed.

(** X10. In a reachable state [_num_moves] is at most [rows * columns].  A
    [step] that returns has added one move or two; when it returns
    [terminated = false] it has added two, and the board still has an
    empty cell. *)
Theorem step_makes_progress (s : env policy) :
  reachable opponent s ->
  _num_moves s <= rows s * columns s /\
  (forall action res s',
     step opponent action s = (Ok res, s') ->
     (_num_moves s' = _num_moves s + 1 \/ _num_moves s' = _num_moves s + 2) /\
     (terminated res = false ->
      _num_moves s' = _num_moves s + 2 /\
      _num_moves s' < rows s' * columns s')).
Proof.
  intros Hreach.
  assert (forall t, reachable opponent t -> _num_moves t <= rows t * columns t)
    as Hbound.
  { intros t Ht. destruct (reachable_invariant _ _ _ Ht) as (Hwft & _ & Hn & _).
    rewrite <- Hn. now apply count_occupied_le. }
  split; [now apply Hbound|].
  intros action res s' Hstep.
  assert (reachable opponent s') as Hreach' by (eapply reach_step; eauto).
  specialize (Hbound s' Hreach').
  destruct (reachable_invariant _ _ _ Hreach) as (Hwf & _).
  rewrite step_eq in Hstep.
  destruct (illegal action s) as [[[|]|e] s0] eqn:Hg; try discriminate.
  pose proof (illegal_state _ action s) as Hs. rewrite Hg in Hs.
  simpl in Hs. subst s0.
  destruct (guarded_move _ action 1 s Hwf Hg) as (row & _ & Hm).
  rewrite Hm in Hstep.
  destruct (guarded_move_wf _ action 1 s row _ Hwf Hg Hm) as (Hwf1 & _).
  set (s1 := set_board _ _) in *.
  assert (_num_moves s1 = S (_num_moves s)) as Hn1 by reflexivity.
  clearbody s1.
  destruct (_is_win _ _ _) as [[[|]|e] s3]; try discriminate.
  { injection Hstep as <- <-. simpl. split; [lia | discriminate]. }
  destruct (is_full s1) eqn:Hf1.
  { injection Hstep as <- <-. simpl. split; [lia | discriminate]. }
  rewrite opponent_turn_eq in Hstep.
  destruct (_opponent_move opponent s1) as [[[orow ocol]|e] s2] eqn:Hom;
    [|discriminate].
  pose proof (opponent_move_counts s1 orow ocol s2 Hwf1 Hom) as Hn2.
  destruct (_is_win _ _ _) as [[[|]|e] s4]; try discriminate.
  { injection Hstep as <- <-. simpl. split; [lia | discriminate]. }
  destruct (is_full s2) eqn:Hf2; injection Hstep as <- <-; simpl.
  - split; [lia | discriminate].
  - split; [lia|]. intros _. split; [lia|].
    unfold is_full in Hf2. apply Nat.eqb_neq in Hf2. lia.
Qed.


(** X12. What [step] returns is consistent: the observation is the agent's
    view of the grid [step] leaves behind, the reward is 1, 0 or -1, and a
    reward other than 0 comes only with [terminated = true]. *)
Theorem step_result_consistent (s : env policy) (action : Z)
  (res : step_result) (s' : env policy) :
  step opponent action s = (Ok res, s') ->
  observation res = planes 1 (_board s') /\
  (reward res = 1 \/ reward res = 0 \/ reward res = -1)%Z /\
  (reward res <> 0%Z -> terminated res = true).
Proof.
  rewrite step_eq.
  destruct (illegal action s) as [[[|]|e] s0]; try discriminate.
  destruct (_move action 1 s) as [[row|e] s1]; [|discriminate].
  destruct (_is_win _ _ _) as [[[|]|e] s3]; try discriminate.
  { intros [= <- <-]. simpl. auto. }
  destruct (is_full s1).
  { intros [= <- <-]. simpl. auto. }
  rewrite opponent_turn_eq.
  destruct (_opponent_move opponent s1) as [[[orow ocol]|e] s2]; [|discriminate].
  destruct (_is_win _ _ _) as [[[|]|e] s4]; try discriminate.
  { intros [= <- <-]. simpl. auto. }
  destruct (is_full s2); intros [= <- <-]; simpl; repeat split; auto;
    intros H; contradiction.
Qed.

End Progress.

Lemma step_makes_progress_witness :
  _num_moves three_game <= rows three_game * columns three_game /\
  (forall action res s',
     step fixed_opponent action three_game = (Ok res, s') ->
     (_num_moves s' = _num_moves three_game + 1 \/
      _num_moves s' = _num_moves three_game + 2) /\
     (terminated res = false ->
      _num_moves s' = _num_moves three_game + 2 /\
      _num_moves s' < rows s' * columns s')).
Proof.
  apply (step_makes_progress Z fixed_opponent three_game).
  exact three_game_reachable.
Defined.


Lemma step_result_consistent_witness :
  observation (StepResult (planes 1 (_board won_game)) 1 true false) =
  planes 1 (_board won_game) /\
  (reward (StepResult (planes 1 (_board won_game)) 1 true false) = 1 \/
   reward (StepResult (planes 1 (_board won_game)) 1 true false) = 0 \/
   reward (StepResult (planes 1 (_board won_game)) 1 true false) = -1)%Z /\
  (reward (StepResult (planes 1 (_board won_game)) 1 true false) <> 0%Z ->
   terminated (StepResult (planes 1 (_board won_game)) 1 true false) = true).
Proof.
  apply (step_result_consistent Z fixed_opponent three_game 3 _ won_game).
  reflexivity.
Defined.

(** ** Rendering *)

Lemma dict_get_piece (x : Z) :
  is_piece x = true ->
  exists ch,
    dict_get DISPLAY_CHARACTER x = Some ch /\
    (ch =? newline)%N = false /\
    read_character ch = Some x.
Proof.
  unfold is_piece. intros H.
  destruct (Z.eqb_spec x 0) as [E0|E0]; [subst x; eexists; repeat split|].
  destruct (Z.eqb_spec x 1) as [E1|E1]; [subst x; eexists; repeat split|].
  destruct (Z.eqb_spec x (-1)) as [E2|E2]; [subst x; eexists; repeat split|].
  discriminate.
Qed.

Lemma dict_get_some (x : Z) (ch : N) :
  dict_get DISPLAY_CHARACTER x = Some ch -> is_piece x = true.
Proof.
  unfold is_piece, DISPLAY_CHARACTER. cbn [dict_get].
  destruct (Z.eqb_spec 1 x) as [E1|E1]; [subst x; reflexivity|].
  destruct (Z.eqb_spec (-1) x) as [E2|E2]; [subst x; reflexivity|].
  destruct (Z.eqb_spec 0 x) as [E0|E0]; [subst x; reflexivity|].
  intros H. discriminate H.
Qed.

Lemma print_row_ok (row : list Z) :
  Forall (fun x => is_piece x = true) row ->
  exists out,
    print_row row = (out, None) /\
    length out = S (length row) /\
    forall text acc,
      read_lines (out ++ text) acc = (rev acc ++ row) :: read_lines text [].
Proof.
  induction 1 as [|x row Hx _ IH].
  - exists [newline]. repeat split. intros text acc. simpl.
    now rewrite app_nil_r.
  - destruct IH as (out & Hout & Hlen & Hread).
    destruct (dict_get_piece x Hx) as (ch & Hch & Hnl & Hrc).
    exists (ch :: out). cbn [print_row]. rewrite Hch, Hout.
    split; [reflexivity|]. split; [simpl; now rewrite Hlen|].
    intros text acc. cbn [app read_lines]. rewrite Hnl, Hrc, Hread.
    cbn [rev]. now rewrite <- app_assoc.
Qed.

Lemma print_row_raises (row : list Z) (out : list N) (e : render_exn) :
  print_row row = (out, Some e) ->
  exists piece, e = KeyError piece /\ In piece row /\ is_piece piece = false.
Proof.
  revert out. induction row as [|x row IH]; cbn [print_row]; intros out H;
    [discriminate|].
  destruct (dict_get DISPLAY_CHARACTER x) as [ch|] eqn:Hch.
  - destruct (print_row row) as [out' [e'|]] eqn:Hrow; [|discriminate].
    injection H as _ <-. destruct (IH out' eq_refl) as (piece & -> & Hin & Hp).
    exists piece. repeat split; auto; now right.
  - injection H as _ <-. exists x. repeat split; [now left|].
    destruct (is_piece x) eqn:Hp; auto.
    destruct (dict_get_piece x Hp) as (ch & Hch' & _). congruence.
Qed.

Lemma print_rows_ok (rows : list (list Z)) :
  pieces_only rows ->
  exists out,
    print_rows rows = (out, None) /\
    length out = list_sum (map (fun row => S (length row)) rows) /\
    forall text, read_lines (out ++ text) [] = rows ++ read_lines text [].
Proof.
  induction 1 as [|row rows Hrow _ IH].
  - exists []. repeat split.
  - destruct IH as (out' & Hout' & Hlen' & Hread').
    destruct (print_row_ok row Hrow) as (out & Hout & Hlen & Hread).
    exists (out ++ out'). simpl. rewrite Hout, Hout'. repeat split.
    + rewrite length_app, Hlen, Hlen'. reflexivity.
    + intros text. rewrite <- app_assoc, Hread, Hread'. reflexivity.
Qed.

Lemma print_rows_raises (rows : list (list Z)) (out : list N) (e : render_exn) :
  print_rows rows = (out, Some e) ->
  exists piece row,
    e = KeyError piece /\ In row rows /\ In piece row /\ is_piece piece = false.
Proof.
  revert out. induction rows as [|row rows IH]; simpl; intros out H; [discriminate|].
  destruct (print_row row) as [out1 [e1|]] eqn:Hrow.
  - injection H as _ <-.
    destruct (print_row_raises row out1 e1 Hrow) as (piece & -> & Hin & Hp).
    exists piece, row. repeat split; auto; now left.
  - destruct (print_rows rows) as [out2 [e2|]] eqn:Hrows; [|discriminate].
    injection H as _ <-.
    destruct (IH out2 eq_refl) as (piece & row' & -> & Hin & Hin' & Hp).
    exists piece, row'. repeat split; auto; now right.
Qed.

Lemma list_sum_rows (nrows ncols : nat) (b : list (list Z)) :
  wf_board nrows ncols b ->
  list_sum (map (fun row => S (length row)) b) = nrows * (ncols + 1).
Proof.
  intros [Hlen Hall]. subst nrows.
  induction Hall as [|row b Hrow _ IH]; simpl; auto.
  rewrite IH, Hrow. lia.
Qed.

(** X13. [_render("human")] on a well-formed board whose cells are 0, 1
    or -1 (every reachable board is one) raises nothing and prints
    [rows] lines of [columns] characters, each line ended by a newline,
    the top row first: reading the text back line by line, last line
    first, gives the grid again. *)
Theorem render_human_round_trip (policy : Type) (s : env policy) :
  wf s -> pieces_only (_board s) ->
  exists text,
    _render "human" s = (text, None) /\
    length text = rows s * (columns s + 1) /\
    read_board text = _board s.
Proof.
  intros Hwf Hp.
  assert (pieces_only (rev (_board s))) as Hp'.
  { unfold pieces_only in *. now apply Forall_rev. }
  assert (wf_board (rows s) (columns s) (rev (_board s))) as Hwf'.
  { destruct Hwf as [Hlen Hall]. split.
    - now rewrite length_rev.
    - now apply Forall_rev. }
  destruct (print_rows_ok _ Hp') as (out & Hout & Hlen & Hread).
  exists out. unfold _render. simpl String.eqb. cbv iota.
  split; [exact Hout|]. split.
  - rewrite Hlen. apply (list_sum_rows _ _ _ Hwf').
  - unfold read_board. specialize (Hread []). rewrite app_nil_r in Hread.
    rewrite Hread. simpl. rewrite app_nil_r. apply rev_involutive.
Qed.

Lemma render_human_round_trip_witness :
  exists text,
    _render "human" three_game = (text, None) /\
    length text = rows three_game * (columns three_game + 1) /\
    read_board text = _board three_game.
Proof.
  apply (render_human_round_trip Z three_game).
  - split; [reflexivity | repeat constructor].
  - repeat constructor.
Defined.

(** X14. The exceptions of [_render]: any mode other than "human" raises
    "invalid render mode" before anything is printed; with "human" the
    only exception is the [KeyError] of a cell whose value is not a key of
    [DISPLAY_CHARACTER], so that rendering succeeds exactly on the grids
    whose cells are all 0, 1 or -1. *)
Theorem render_exceptions (policy : Type) (s : env policy) (mode : string) :
  (mode <> "human"%string -> _render mode s = ([], Some InvalidRenderMode)) /\
  (snd (_render "human" s) = None <-> pieces_only (_board s)) /\
  (forall e, snd (_render "human" s) = Some e ->
     exists piece row,
       e = KeyError piece /\ In row (_board s) /\ In piece row /\
       is_piece piece = false).
Proof.
  assert (forall e, snd (_render "human" s) = Some e ->
            exists piece row,
              e = KeyError piece /\ In row (_board s) /\ In piece row /\
              is_piece piece = false) as Hraise.
  { intros e. unfold _render. simpl String.eqb. cbv iota.
    destruct (print_rows (rev (_board s))) as [out [e'|]] eqn:H; simpl;
      [|discriminate].
    intros [= <-].
    destruct (print_rows_raises _ _ _ H) as (piece & row & -> & Hin & Hin' & Hp).
    exists piece, row. repeat split; auto. now apply in_rev. }
  split; [|split; [|exact Hraise]].
  - intros Hmode. unfold _render. apply String.eqb_neq in Hmode.
    now rewrite Hmode.
  - split.
    + intros Hnone. unfold pieces_only.
      apply Forall_forall. intros row Hrow.
      apply Forall_forall. intros x Hx.
      destruct (is_piece x) eqn:Hp; auto. exfalso.
      assert (~ pieces_only (rev (_board s))) as Hnot.
      { intros Hall. unfold pieces_only in Hall. rewrite Forall_forall in Hall.
        specialize (Hall row ltac:(now apply -> in_rev)).
        rewrite Forall_forall in Hall. rewrite (Hall x Hx) in Hp. discriminate. }
      unfold _render in Hnone. simpl String.eqb in Hnone. cbv iota in Hnone.
      clear Hraise. revert Hnone Hnot. generalize (rev (_board s)). intros rows.
      induction rows as [|r rows IH]; simpl; intros Hnone Hnot.
      * apply Hnot. constructor.
      * destruct (print_row r) as [out1 [e1|]] eqn:Hr; [discriminate|].
        destruct (print_rows rows) as [out2 [e2|]] eqn:Hrs; [discriminate|].
        apply IH; [reflexivity|]. intros Hall. apply Hnot. constructor; auto.
        clear -Hr. revert out1 Hr.
        induction r as [|y r IHr]; cbn [print_row]; intros out1 Hr; [constructor|].
        destruct (dict_get DISPLAY_CHARACTER y) as [ch|] eqn:Hch; [|discriminate].
        destruct (print_row r) as [out' [e'|]] eqn:Hr'; [discriminate|].
        constructor; [eapply dict_get_some; eauto | eapply IHr; eauto].
    + intros Hp.
      assert (pieces_only (rev (_board s))) as Hp'
        by (unfold pieces_only in *; now apply Forall_rev).
      destruct (print_rows_ok _ Hp') as (out & Hout & _).
      unfold _render. simpl String.eqb. cbv iota. now rewrite Hout.
Qed.
